(** * Ultracube Factoriopedia: the data processor (data-processor.js)

    A shallow embedding of [UltracubeDataProcessor]: the index object with its
    eight fields, [loadData]/[processData] that fill it, and the query methods
    the two pages call.  Methods are written in a small state-and-exception
    monad over the index, because the class keeps its state in [this] and
    [loadData] catches what the fetches throw. *)

From Stdlib Require Import Ascii List Bool ZArith.
From stdpp Require Import base option list gmap strings pretty sorting.

(** ** Values of the host language *)

(** What a JavaScript expression gives where the code treats "no value"
    specially: [undefined] (a missing key, [Map.get] or [find] without a hit),
    [null] (the literal the code returns), or a value. *)
Inductive js (A : Type) : Type :=
| Undefined
| Null
| Val (a : A).
Arguments Undefined {A}.
Arguments Null {A}.
Arguments Val {A} a.

(** Truthiness of an optional string field: a missing or [null] field and the
    empty string are falsy. *)
Definition truthy (o : option string) : bool :=
  match o with
  | Some s => negb (String.eqb s "")
  | None => false
  end.

(** [a || b] where [a] is an optional string field and [b] a string. *)
Definition or_else (a : option string) (b : string) : string :=
  match a with
  | Some s => if truthy a then s else b
  | None => b
  end.

(** ** The dataset document

    The document is a JSON object keyed by record-type name.  A bucket is an
    array of records or, in the wrapper form, another object; it is given by
    the type of relation data below.  A record is a JSON object; the fields
    below are the ones the processor reads, all other fields ride along
    untouched when the code spreads the record ([...item]). *)

(** Relation data, as [extractItems] and [extractCategories] receive it: the
    field is missing (or [null]), is an array, or is some other object, which
    may carry its payload under the marker key [_array_items].  The buckets of
    the dataset come in the same three shapes. *)
Inductive relation (A : Type) : Type :=
| Missing
| PlainArray (elems : list A)
| Wrapper (_array_items : option (list A)).
Arguments Missing {A}.
Arguments PlainArray {A} elems.
Arguments Wrapper {A} _array_items.

(** An ingredient or result: [{name, amount}]. *)
Module Entry.
Record t := { name : string; amount : option Z }.
End Entry.

(** A technology effect: [{type, recipe}]. *)
Module Effect.
Record t := { type : string; recipe : option string }.
End Effect.

Module Raw.
Record record := {
  name : string;
  cleaned_name : option string;
  category : option string;
  ingredients : relation Entry.t;
  results : relation Entry.t;
  crafting_categories : relation string;
  effects : relation Effect.t
}.
End Raw.

(** The dataset: under each key [Missing] for [null] or another falsy value,
    an array of records, or [Wrapper] for any other value, none of which has
    a [map], [forEach] or [find] to call. *)
Abbreviation dataset := (gmap string (relation Raw.record)).

(** The icon-mapping document: id to icon filename. *)
Abbreviation icons := (gmap string string).

(** ** Processed records *)

(** [{...item, displayName, id, type}] *)
Module Item.
Record t := {
  raw : Raw.record;
  displayName : string;
  id : string;
  type : string
}.
(** [item.name] on the processed object is the spread field. *)
Definition name (item : t) : string := Raw.name (raw item).
End Item.

(** What indexing an object literal or a parsed JSON object with a string can
    give besides [undefined]: a string the object holds under that key, or,
    for a key such as [constructor] or [toString], the member every object
    inherits. *)
Inductive member :=
| Text (s : string)
| Inherited (key : string).

(** The reference [findCraftingEntity] returns: [{name, id, type}]. *)
Module EntityRef.
Record t := { name : member; id : string; type : string }.
End EntityRef.

(** [{...recipe, displayName, id, ingredients, results, craftingEntity}] *)
Module Recipe.
Record t := {
  raw : Raw.record;
  displayName : string;
  id : string;
  ingredients : list Entry.t;
  results : list Entry.t;
  craftingEntity : js EntityRef.t
}.
Definition name (recipe : t) : string := Raw.name (raw recipe).
Definition category (recipe : t) : option string := Raw.category (raw recipe).
End Recipe.

(** [{...entity, displayName, id, type, categories}] *)
Module Crafting.
Record t := {
  raw : Raw.record;
  displayName : string;
  id : string;
  type : string;
  categories : list string
}.
End Crafting.

(** ** The index: the fields of [UltracubeDataProcessor] *)

Record index := {
  data : option dataset;
  recipes : list Recipe.t;
  items : list Item.t;
  craftingEntities : list Crafting.t;
  recipeLookup : gmap string Recipe.t;
  itemLookup : gmap string Item.t;
  craftingLookup : gmap string Crafting.t;
  iconMapping : icons
}.

(** The state the constructor leaves. *)
Definition constructor : index :=
  {| data := None; recipes := []; items := []; craftingEntities := [];
     recipeLookup := ∅; itemLookup := ∅; craftingLookup := ∅;
     iconMapping := ∅ |}.

Definition set_data (v : option dataset) (st : index) : index :=
  {| data := v; recipes := recipes st; items := items st;
     craftingEntities := craftingEntities st; recipeLookup := recipeLookup st;
     itemLookup := itemLookup st; craftingLookup := craftingLookup st;
     iconMapping := iconMapping st |}.

Definition set_recipes (v : list Recipe.t) (st : index) : index :=
  {| data := data st; recipes := v; items := items st;
     craftingEntities := craftingEntities st; recipeLookup := recipeLookup st;
     itemLookup := itemLookup st; craftingLookup := craftingLookup st;
     iconMapping := iconMapping st |}.

Definition set_items (v : list Item.t) (st : index) : index :=
  {| data := data st; recipes := recipes st; items := v;
     craftingEntities := craftingEntities st; recipeLookup := recipeLookup st;
     itemLookup := itemLookup st; craftingLookup := craftingLookup st;
     iconMapping := iconMapping st |}.

Definition set_craftingEntities (v : list Crafting.t) (st : index) : index :=
  {| data := data st; recipes := recipes st; items := items st;
     craftingEntities := v; recipeLookup := recipeLookup st;
     itemLookup := itemLookup st; craftingLookup := craftingLookup st;
     iconMapping := iconMapping st |}.

Definition set_recipeLookup (v : gmap string Recipe.t) (st : index) : index :=
  {| data := data st; recipes := recipes st; items := items st;
     craftingEntities := craftingEntities st; recipeLookup := v;
     itemLookup := itemLookup st; craftingLookup := craftingLookup st;
     iconMapping := iconMapping st |}.

Definition set_itemLookup (v : gmap string Item.t) (st : index) : index :=
  {| data := data st; recipes := recipes st; items := items st;
     craftingEntities := craftingEntities st; recipeLookup := recipeLookup st;
     itemLookup := v; craftingLookup := craftingLookup st;
     iconMapping := iconMapping st |}.

Definition set_craftingLookup (v : gmap string Crafting.t) (st : index) : index :=
  {| data := data st; recipes := recipes st; items := items st;
     craftingEntities := craftingEntities st; recipeLookup := recipeLookup st;
     itemLookup := itemLookup st; craftingLookup := v;
     iconMapping := iconMapping st |}.

Definition set_iconMapping (v : icons) (st : index) : index :=
  {| data := data st; recipes := recipes st; items := items st;
     craftingEntities := craftingEntities st; recipeLookup := recipeLookup st;
     itemLookup := itemLookup st; craftingLookup := craftingLookup st;
     iconMapping := v |}.

(** ** Methods: state over [this], with exceptions

    A method takes the index and gives back what it returned or threw together
    with the index it leaves; what was assigned before a throw stays
    assigned. *)

Inductive error := TypeError | NetworkError | SyntaxError.

Inductive outcome (A : Type) : Type :=
| Returns (a : A)
| Throws (e : error).
Arguments Returns {A} a.
Arguments Throws {A} e.

Definition M (A : Type) : Type := index → outcome A * index.

Definition ret {A} (a : A) : M A := λ st, (Returns a, st).

Definition throw {A} (e : error) : M A := λ st, (Throws e, st).

Definition bind {A B} (m : M A) (k : A → M B) : M B :=
  λ st, match m st with
        | (Returns a, st') => k a st'
        | (Throws e, st') => (Throws e, st')
        end.

(** [try { body } catch (error) { handler }] *)
Definition try_catch {A} (body : M A) (handler : error → M A) : M A :=
  λ st, match body st with
        | (Returns a, st') => (Returns a, st')
        | (Throws e, st') => handler e st'
        end.

(** Reading [this.field] and assigning to it. *)
Definition this {A} (field : index → A) : M A := λ st, (Returns (field st), st).

Definition assign (update : index → index) : M unit :=
  λ st, (Returns tt, update st).

Declare Scope method_scope.
Delimit Scope method_scope with method.
Notation "x ⇐ m ;; k" := (bind m (λ x, k))
  (at level 100, m at next level, right associativity) : method_scope.
Notation "m ;; k" := (bind m (λ _, k))
  (at level 100, right associativity) : method_scope.
Bind Scope method_scope with M.
Open Scope method_scope.

(** What a call returned or threw, and the index it left. *)
Definition result {A} (m : M A) (st : index) : outcome A := fst (m st).
Definition after {A} (m : M A) (st : index) : index := snd (m st).

(** [array.forEach(body)] *)
Fixpoint forEach {A} (array : list A) (body : A → M unit) : M unit :=
  match array with
  | [] => ret tt
  | x :: rest => body x ;; forEach rest body
  end.

(** [array.map(f)] with a callback that runs as a method. *)
Fixpoint mapM {A B} (array : list A) (f : A → M B) : M (list B) :=
  match array with
  | [] => ret []
  | x :: rest => y ⇐ f x ;; ys ⇐ mapM rest f ;; ret (y :: ys)
  end.

(** [array.some(p)]: stops at the first element that satisfies [p]. *)
Fixpoint someM {A} (array : list A) (p : A → M bool) : M bool :=
  match array with
  | [] => ret false
  | x :: rest => b ⇐ p x ;; if b then ret true else someM rest p
  end.

(** [array.find(p)]: the first element that satisfies [p], else
    [undefined]. *)
Fixpoint findM {A} (array : list A) (p : A → M bool) : M (js A) :=
  match array with
  | [] => ret Undefined
  | x :: rest => b ⇐ p x ;; if b then ret (Val x) else findM rest p
  end.

(** [this.data[key]]: [undefined] for a key the dataset does not have;
    throws when [this.data] is still [null]. *)
Definition data_get (key : string) : M (option (relation Raw.record)) :=
  d ⇐ this data ;;
  match d with
  | Some doc => ret (doc !! key)
  | None => throw TypeError
  end.

(** ** Strings *)

(** [\w] of a regular expression without the [u] flag. *)
Definition is_word (c : ascii) : bool :=
  let n := nat_of_ascii c in
  (Nat.leb 97 n && Nat.leb n 122) || (Nat.leb 65 n && Nat.leb n 90)
  || (Nat.leb 48 n && Nat.leb n 57) || Nat.eqb n 95.

(** [l.toUpperCase()] for a single [\w] character. *)
Definition upper (c : ascii) : ascii :=
  let n := nat_of_ascii c in
  if Nat.leb 97 n && Nat.leb n 122 then ascii_of_nat (n - 32) else c.

(** [s.replace(/-/g, ' ')] *)
Fixpoint dashes_to_spaces (s : string) : string :=
  match s with
  | EmptyString => EmptyString
  | String c rest =>
      String (if Ascii.eqb c "-" then " "%char else c) (dashes_to_spaces rest)
  end.

(** [s.replace(/\b\w/g, l => l.toUpperCase())]: a word character is at a word
    boundary when the character before it, if any, is not one.
    [after_word] tells whether the previous character was a word character. *)
Fixpoint capitalize_from (after_word : bool) (s : string) : string :=
  match s with
  | EmptyString => EmptyString
  | String c rest =>
      String (if is_word c && negb after_word then upper c else c)
             (capitalize_from (is_word c) rest)
  end.

Definition capitalize_words (s : string) : string := capitalize_from false s.

(** [s.startsWith(q)] *)
Fixpoint startsWith (s q : string) {struct q} : bool :=
  match q, s with
  | EmptyString, _ => true
  | String a q', String b s' => Ascii.eqb a b && startsWith s' q'
  | String _ _, EmptyString => false
  end.

(** [s.includes(q)] on strings *)
Fixpoint includes (s q : string) : bool :=
  startsWith s q ||
  match s with
  | EmptyString => false
  | String _ s' => includes s' q
  end.

(** [array.includes(x)] for an array of strings and a field that may be
    missing: [undefined] is not an element of it. *)
Definition array_includes (array : list string) (x : option string) : bool :=
  match x with
  | Some s => existsb (String.eqb s) array
  | None => false
  end.

(** [Array.prototype.sort()] without a comparator, on strings. *)
Fixpoint sort_insert (x : string) (sorted : list string) : list string :=
  match sorted with
  | [] => [x]
  | y :: rest => if String.leb x y then x :: y :: rest else y :: sort_insert x rest
  end.

Definition sort (array : list string) : list string :=
  fold_right sort_insert [] array.

(** ** Objects used as maps *)

(** The members an object inherits from [Object.prototype]. *)
Definition objectPrototype : list string :=
  ["constructor"; "hasOwnProperty"; "isPrototypeOf"; "propertyIsEnumerable";
   "toLocaleString"; "toString"; "valueOf"; "__proto__";
   "__defineGetter__"; "__defineSetter__"; "__lookupGetter__";
   "__lookupSetter__"].

(** [object[key]]: an own property shadows an inherited member. *)
Definition object_get (object : gmap string string) (key : string) : js member :=
  match object !! key with
  | Some s => Val (Text s)
  | None =>
      if existsb (String.eqb key) objectPrototype then Val (Inherited key)
      else Undefined
  end.

(** [map.get(key)] on a [Map] *)
Definition Map_get {V} (map : gmap string V) (key : string) : js V :=
  match map !! key with
  | Some v => Val v
  | None => Undefined
  end.

(** ** Normalising relation data *)

(** [extractItems(itemsData)] *)
Definition extractItems {A} (itemsData : relation A) : list A :=
  match itemsData with
  | Missing => []
  | PlainArray elems => elems
  | Wrapper (Some payload) => payload
  | Wrapper None => []
  end.

(** [extractCategories(categoriesData)] *)
Definition extractCategories {A} (categoriesData : relation A) : list A :=
  match categoriesData with
  | Missing => []
  | PlainArray elems => elems
  | Wrapper (Some payload) => payload
  | Wrapper None => []
  end.

(** ** Resolving the crafting entity of a category *)

Definition categoryMappings : gmap string string :=
  list_to_map
    [("crafting", "Assembling Machine"); ("smelting", "Furnace");
     ("chemistry", "Chemical Plant"); ("oil-processing", "Oil Refinery");
     ("rocket-building", "Rocket Silo")].

(** [this.craftingEntities.find(e => e.categories && e.categories.includes(category))];
    [e.categories] is an array, which is truthy. *)
Definition handles (category : string) (e : Crafting.t) : bool :=
  array_includes (Crafting.categories e) (Some category).

(** [findCraftingEntity(category)] *)
Definition findCraftingEntity (category : option string) : M (js EntityRef.t) :=
  match category with
  | Some c =>
      if truthy category then
        entities ⇐ this craftingEntities ;;
        match List.find (handles c) entities with
        | Some entity =>
            ret (Val {| EntityRef.name := Text (Crafting.displayName entity);
                        EntityRef.id := Crafting.id entity;
                        EntityRef.type := Crafting.type entity |})
        | None =>
            ret (Val {| EntityRef.name :=
                          match object_get categoryMappings c with
                          | Val m => m
                          | _ => Text (capitalize_words (dashes_to_spaces c))
                          end;
                        EntityRef.id := c;
                        EntityRef.type := "category" |})
        end
      else ret Null
  | None => ret Null
  end.

(** ** Loading *)

Definition itemTypes : list string :=
  ["item"; "fluid"; "science"; "armor"; "module"; "capsule"; "repair-tool";
   "item-with-entity-data"; "rail-planner"].

Definition entityTypes : list string :=
  ["assembling-machine"; "furnace"; "mining-drill"; "lab"].

(** The object the [map] callback of the item loop builds. *)
Definition make_item (type : string) (item : Raw.record) : Item.t :=
  {| Item.raw := item;
     Item.displayName := or_else (Raw.cleaned_name item) (Raw.name item);
     Item.id := Raw.name item;
     Item.type := type |}.

(** The object the [map] callback of the recipe step builds. *)
Definition make_recipe (recipe : Raw.record) : M Recipe.t :=
  entity ⇐ findCraftingEntity (Raw.category recipe) ;;
  ret {| Recipe.raw := recipe;
         Recipe.displayName := or_else (Raw.cleaned_name recipe) (Raw.name recipe);
         Recipe.id := Raw.name recipe;
         Recipe.ingredients := extractItems (Raw.ingredients recipe);
         Recipe.results := extractItems (Raw.results recipe);
         Recipe.craftingEntity := entity |}.

(** The object the entity loop builds. *)
Definition make_crafting (type : string) (entity : Raw.record) : Crafting.t :=
  {| Crafting.raw := entity;
     Crafting.displayName := or_else (Raw.cleaned_name entity) (Raw.name entity);
     Crafting.id := Raw.name entity;
     Crafting.type := type;
     Crafting.categories := extractCategories (Raw.crafting_categories entity) |}.

(** [processData()]; a bucket that is there and is not an array has no
    [map] and no [forEach] to call: a [TypeError]. *)
Definition processData : M unit :=
  assign (set_items []) ;;
  forEach itemTypes (λ type,
    bucket ⇐ data_get type ;;
    match bucket with
    | Some (PlainArray records) =>
        let typeItems := map (make_item type) records in
        assign (λ st, set_items (items st ++ typeItems) st) ;;
        forEach typeItems (λ item,
          assign (λ st, set_itemLookup (<[Item.name item := item]> (itemLookup st)) st))
    | Some (Wrapper _) => throw TypeError
    | _ => ret tt
    end) ;;
  recipe ⇐ data_get "recipe" ;;
  match recipe with
  | Some (PlainArray records) =>
      processed ⇐ mapM records make_recipe ;;
      assign (set_recipes processed) ;;
      rs ⇐ this recipes ;;
      forEach rs (λ recipe,
        assign (λ st, set_recipeLookup (<[Recipe.name recipe := recipe]> (recipeLookup st)) st))
  | Some (Wrapper _) => throw TypeError
  | _ => ret tt
  end ;;
  assign (set_craftingEntities []) ;;
  forEach entityTypes (λ type,
    bucket ⇐ data_get type ;;
    match bucket with
    | Some (PlainArray records) =>
        forEach records (λ entity,
          let crafting := make_crafting type entity in
          assign (λ st, set_craftingEntities (craftingEntities st ++ [crafting]) st) ;;
          assign (λ st, set_craftingLookup (<[Raw.name entity := crafting]> (craftingLookup st)) st))
    | Some (Wrapper _) => throw TypeError
    | _ => ret tt
    end).

(** What [await fetch(url)] followed by [await response.json()] comes to: the
    request fails, the body does not parse, or the parsed document. *)
Inductive fetched (A : Type) : Type :=
| Unreachable
| Malformed
| Json (document : A).
Arguments Unreachable {A}.
Arguments Malformed {A}.
Arguments Json {A} document.

(** The two files the page is served with. *)
Record site := {
  ultracube_organized_data : fetched dataset;
  icon_mapping : fetched icons
}.

Definition await {A} (response : fetched A) : M A :=
  match response with
  | Unreachable => throw NetworkError
  | Malformed => throw SyntaxError
  | Json document => ret document
  end.

(** [loadData()] *)
Definition loadData (web : site) : M bool :=
  try_catch
    (document ⇐ await (ultracube_organized_data web) ;;
     assign (set_data (Some document)) ;;
     mapping ⇐ await (icon_mapping web) ;;
     assign (set_iconMapping mapping) ;;
     processData ;;
     ret true)
    (λ _, ret false).

(** ** Queries *)

(** [recipe.results.some(result => result.name === itemName)] and the same
    over ingredients. *)
Definition names (itemName : string) (entries : list Entry.t) : bool :=
  existsb (λ entry, String.eqb (Entry.name entry) itemName) entries.

(** [getRecipesThatMake(itemName)] *)
Definition getRecipesThatMake (itemName : string) : M (list Recipe.t) :=
  rs ⇐ this recipes ;;
  ret (List.filter (λ recipe, names itemName (Recipe.results recipe)) rs).

(** [getRecipesThatUse(itemName)] *)
Definition getRecipesThatUse (itemName : string) : M (list Recipe.t) :=
  rs ⇐ this recipes ;;
  ret (List.filter (λ recipe, names itemName (Recipe.ingredients recipe)) rs).

(** [getRecipesCraftableBy(entityName)]; the test [!entity.categories] never
    fires, [categories] being an array. *)
Definition getRecipesCraftableBy (entityName : string) : M (list Recipe.t) :=
  lookup ⇐ this craftingLookup ;;
  match Map_get lookup entityName with
  | Val entity =>
      rs ⇐ this recipes ;;
      ret (List.filter
             (λ recipe, array_includes (Crafting.categories entity) (Recipe.category recipe))
             rs)
  | _ => ret []
  end.

(** [getAllItems()] *)
Definition getAllItems : M (list Item.t) := this items.

(** [getAllRecipes()] *)
Definition getAllRecipes : M (list Recipe.t) := this recipes.

(** [getItem(itemName)] *)
Definition getItem (itemName : string) : M (js Item.t) :=
  lookup ⇐ this itemLookup ;; ret (Map_get lookup itemName).

(** [getRecipe(recipeName)] *)
Definition getRecipe (recipeName : string) : M (js Recipe.t) :=
  lookup ⇐ this recipeLookup ;; ret (Map_get lookup recipeName).

(** [getCraftingEntity(entityName)] *)
Definition getCraftingEntity (entityName : string) : M (js Crafting.t) :=
  lookup ⇐ this craftingLookup ;; ret (Map_get lookup entityName).

(** The types [getItemTypes] adds to ['item']. *)
Definition browsable : list string :=
  ["fluid"; "science"; "armor"; "module"; "capsule"; "repair-tool";
   "item-with-entity-data"; "rail-planner"].

(** [getItemTypes()]; [Object.keys(null)] throws. *)
Definition getItemTypes : M (list string) :=
  d ⇐ this data ;;
  match d with
  | Some document =>
      let keys := (map_to_list document).*1 in
      let types :=
        fold_left
          (λ types key,
             if existsb (String.eqb key) browsable
             then (if existsb (String.eqb key) types then types else types ++ [key])
             else types)
          keys ["item"] in
      ret (sort types)
  | None => throw TypeError
  end.

Section Search.

(** [String.prototype.toLowerCase], the host's. *)
Variable toLowerCase : string → string.

(** The callback of the second [filter] of [searchItems]. *)
Definition matches (lowerQuery : string) (item : Item.t) : bool :=
  includes (toLowerCase (Item.displayName item)) lowerQuery
  || includes (toLowerCase (Item.name item)) lowerQuery.

(** [searchItems(query, typeFilter = '')] *)
Definition searchItems (query typeFilter : string) : M (list Item.t) :=
  filteredItems ⇐ this items ;;
  let filteredItems :=
    if truthy (Some typeFilter)
    then List.filter (λ item, String.eqb (Item.type item) typeFilter) filteredItems
    else filteredItems in
  let filteredItems :=
    if truthy (Some query)
    then
      let lowerQuery := toLowerCase query in
      List.filter (matches lowerQuery) filteredItems
    else filteredItems in
  ret filteredItems.

End Search.

(** [getItemIcon(itemName)]: [this.iconMapping[itemName] || null] *)
Definition getItemIcon (itemName : string) : M (js member) :=
  mapping ⇐ this iconMapping ;;
  match object_get mapping itemName with
  | Val (Text s) => if truthy (Some s) then ret (Val (Text s)) else ret Null
  | Val (Inherited key) => ret (Val (Inherited key))
  | _ => ret Null
  end.

(** The callback of [effects.some] in [getTechnologyThatUnlocks]; an effect
    without a [recipe] field looks up [undefined], which no recipe is indexed
    under. *)
Definition unlocks (itemName : string) (effect : Effect.t) : M bool :=
  if String.eqb (Effect.type effect) "unlock-recipe" then
    recipe ⇐ match Effect.recipe effect with
             | Some recipeName => getRecipe recipeName
             | None => ret Undefined
             end ;;
    match recipe with
    | Val recipe => ret (names itemName (Recipe.results recipe))
    | _ => ret false
    end
  else ret false.

(** [getTechnologyThatUnlocks(itemName)]; a [technology] bucket that is not
    an array has no [find] to call. *)
Definition getTechnologyThatUnlocks (itemName : string) : M (js Raw.record) :=
  technology ⇐ data_get "technology" ;;
  match technology with
  | Some (PlainArray technology) =>
      findM technology (λ tech,
        match Raw.effects tech with
        | Missing => ret false
        | _ =>
            let effects := extractItems (Raw.effects tech) in
            someM effects (unlocks itemName)
        end)
  | Some (Wrapper _) => throw TypeError
  | _ => ret Null
  end.

(** ** What a load leaves in the index

    The loops of [processData], read off as functions of the dataset; the
    lemmas below show that [processData] computes them. *)

(** The records of the bucket under [key], when it is an array. *)
Definition array_bucket (document : dataset) (key : string) : option (list Raw.record) :=
  match document !! key with
  | Some (PlainArray records) => Some records
  | _ => None
  end.

(** The bucket under [key] is there and is not an array. *)
Definition not_an_array (document : dataset) (key : string) : bool :=
  match document !! key with
  | Some (Wrapper _) => true
  | _ => false
  end.

(** None of the buckets [processData] reads is an object other than an
    array. *)
Definition loadable (document : dataset) : Prop :=
  ∀ type, type ∈ itemTypes ++ "recipe" :: entityTypes →
          not_an_array document type = false.

(** The array buckets named by [types], flattened in that order. *)
Definition flatten {B} (make : string → Raw.record → B) (document : dataset)
    (types : list string) : list B :=
  flat_map
    (λ type, match array_bucket document type with
             | Some records => map (make type) records
             | None => []
             end)
    types.

(** What [findCraftingEntity] returns when [this.craftingEntities] is
    [entities]. *)
Definition resolve (entities : list Crafting.t) (category : option string)
    : js EntityRef.t :=
  match category with
  | Some c =>
      if truthy category then
        match List.find (handles c) entities with
        | Some entity =>
            Val {| EntityRef.name := Text (Crafting.displayName entity);
                   EntityRef.id := Crafting.id entity;
                   EntityRef.type := Crafting.type entity |}
        | None =>
            Val {| EntityRef.name :=
                     match object_get categoryMappings c with
                     | Val m => m
                     | _ => Text (capitalize_words (dashes_to_spaces c))
                     end;
                   EntityRef.id := c;
                   EntityRef.type := "category" |}
        end
      else Null
  | None => Null
  end.

(** What [make_recipe] returns when [this.craftingEntities] is [entities]. *)
Definition recipe_of (entities : list Crafting.t) (recipe : Raw.record) : Recipe.t :=
  {| Recipe.raw := recipe;
     Recipe.displayName := or_else (Raw.cleaned_name recipe) (Raw.name recipe);
     Recipe.id := Raw.name recipe;
     Recipe.ingredients := extractItems (Raw.ingredients recipe);
     Recipe.results := extractItems (Raw.results recipe);
     Recipe.craftingEntity := resolve entities (Raw.category recipe) |}.

(** [map.set(key v, v)] for every [v] of [values], in order. *)
Definition set_all {V} (key : V → string) (values : list V) (map : gmap string V)
    : gmap string V :=
  fold_left (λ m v, <[key v := v]> m) values map.

(** The index [processData] leaves when it starts from [st] with the
    loadable dataset [document] in [this.data]. *)
Definition processed (document : dataset) (st : index) : index :=
  let items' := flatten make_item document itemTypes in
  let recipes' :=
    match array_bucket document "recipe" with
    | Some records => map (recipe_of (craftingEntities st)) records
    | None => recipes st
    end in
  let entities' := flatten make_crafting document entityTypes in
  {| data := Some document;
     recipes := recipes';
     items := items';
     craftingEntities := entities';
     recipeLookup :=
       match array_bucket document "recipe" with
       | Some _ => set_all Recipe.name recipes' (recipeLookup st)
       | None => recipeLookup st
       end;
     itemLookup := set_all Item.name items' (itemLookup st);
     craftingLookup :=
       set_all (λ c, Raw.name (Crafting.raw c)) entities' (craftingLookup st);
     iconMapping := iconMapping st |}.

(** A method that never assigns. *)
Definition readonly {A} (m : M A) : Prop := ∀ st, after m st = st.

(** A response that [await] throws on. *)
Definition failed {A} (response : fetched A) : Prop :=
  match response with
  | Json _ => False
  | _ => True
  end.

(** [loadData] came back with [true] and left [st']. *)
Definition loads (web : site) (st st' : index) : Prop :=
  loadData web st = (Returns true, st').

(** The last element of [values] stored under [k]: the writer that wins when
    every element is [set] under its key in turn. *)
Definition latest {V} (key : V → string) (k : string) (values : list V) : option V :=
  last (List.filter (λ v, String.eqb (key v) k) values).

(** [entry] is a record of one of the buckets named by [types]. *)
Definition declared (document : dataset) (types : list string) (entry : Raw.record)
    : Prop :=
  ∃ type records,
    type ∈ types ∧ document !! type = Some (PlainArray records) ∧ entry ∈ records.

(** [x] is one of the elements that relation data lists, directly as an array
    or under [_array_items]. *)
Definition listed {A} (x : A) (data : relation A) : Prop :=
  (∃ elems, data = PlainArray elems ∧ x ∈ elems)
  ∨ (∃ payload, data = Wrapper (Some payload) ∧ x ∈ payload).

(** [tech] has an [unlock-recipe] effect whose recipe, looked up in the recipe
    index of [st], has a result named [itemName]. *)
Definition unlocks_item (st : index) (itemName : string) (tech : Raw.record) : Prop :=
  ∃ effect recipeName recipe result,
    listed effect (Raw.effects tech)
    ∧ Effect.type effect = "unlock-recipe"
    ∧ Effect.recipe effect = Some recipeName
    ∧ recipeLookup st !! recipeName = Some recipe
    ∧ result ∈ Recipe.results recipe
    ∧ Entry.name result = itemName.

(** [q] occurs in [s] once both are lower-cased. *)
Definition mentions (toLowerCase : string → string) (s q : string) : Prop :=
  ∃ before later, toLowerCase s = before +:+ toLowerCase q +:+ later.

(** ** Sample documents *)

Definition record (name : string) (cleaned_name : option string) : Raw.record :=
  {| Raw.name := name; Raw.cleaned_name := cleaned_name; Raw.category := None;
     Raw.ingredients := Missing; Raw.results := Missing;
     Raw.crafting_categories := Missing; Raw.effects := Missing |}.

Definition entry (name : string) (amount : Z) : Entry.t :=
  {| Entry.name := name; Entry.amount := Some amount |}.

Definition iron_plate_recipe : Raw.record :=
  {| Raw.name := "iron-plate"; Raw.cleaned_name := Some "Iron Plate";
     Raw.category := Some "smelting";
     Raw.ingredients := PlainArray [entry "iron-ore" 1];
     Raw.results := Wrapper (Some [entry "iron-plate" 1]);
     Raw.crafting_categories := Missing; Raw.effects := Missing |}.

Definition stone_furnace : Raw.record :=
  {| Raw.name := "stone-furnace"; Raw.cleaned_name := Some "Stone Furnace";
     Raw.category := None; Raw.ingredients := Missing; Raw.results := Missing;
     Raw.crafting_categories := PlainArray ["smelting"]; Raw.effects := Missing |}.

Definition smelting_tech : Raw.record :=
  {| Raw.name := "smelting-1"; Raw.cleaned_name := None;
     Raw.category := None; Raw.ingredients := Missing; Raw.results := Missing;
     Raw.crafting_categories := Missing;
     Raw.effects :=
       PlainArray [{| Effect.type := "unlock-recipe"; Effect.recipe := Some "iron-plate" |}] |}.

(** A small dataset: two items, a fluid, one recipe, the furnace that smelts
    it and the technology that unlocks it. *)
Definition sample : dataset :=
  list_to_map
    [("item", PlainArray [record "iron-plate" (Some "Iron Plate"); record "iron-ore" None]);
     ("fluid", PlainArray [record "water" (Some "")]);
     ("recipe", PlainArray [iron_plate_recipe]);
     ("furnace", PlainArray [stone_furnace]);
     ("technology", PlainArray [smelting_tech])].

Definition sample_site : site :=
  {| ultracube_organized_data := Json sample;
     icon_mapping := Json {[ "iron-plate" := "iron-plate.png" ]} |}.

(** The same id in two buckets. *)
Definition clashing : dataset :=
  list_to_map
    [("item", PlainArray [record "cube" (Some "Cube")]);
     ("fluid", PlainArray [record "cube" (Some "Liquid Cube")])].

Definition clashing_site : site :=
  {| ultracube_organized_data := Json clashing; icon_mapping := Json ∅ |}.

(** The sample with its [technology] bucket in the wrapper form. *)
Definition wrapped_technology : dataset :=
  <["technology" := Wrapper (Some [smelting_tech])]> sample.

Definition wrapped_technology_site : site :=
  {| ultracube_organized_data := Json wrapped_technology; icon_mapping := Json ∅ |}.

(** The sample with its [fluid] bucket in the wrapper form. *)
Definition wrapped_fluid : dataset :=
  <["fluid" := Wrapper (Some [record "water" (Some "")])]> sample.

Definition wrapped_fluid_site : site :=
  {| ultracube_organized_data := Json wrapped_fluid; icon_mapping := Json ∅ |}.

(** The dataset arrives, the icon mapping does not. *)
Definition iconless_site : site :=
  {| ultracube_organized_data := Json sample; icon_mapping := Unreachable |}.

(** Lower-casing of the letters A to Z. *)
Definition lower (c : ascii) : ascii :=
  let n := nat_of_ascii c in
  if Nat.leb 65 n && Nat.leb n 90 then ascii_of_nat (n + 32) else c.

Fixpoint ascii_lower (s : string) : string :=
  match s with
  | EmptyString => EmptyString
  | String c rest => String (lower c) (ascii_lower rest)
  end.

(** ** The homepage (app.js)

    [UltracubeApp] keeps the list the page shows in [this.currentItems], the
    three controls in [currentQuery], [currentTypeFilter] and [currentSort],
    and writes to two elements of the document: the grid of cards and the
    item count. *)

(** [escapeHtml(text)]: [map[m]] for the five characters its expression
    matches: the ampersand, the two angle brackets, the double quote
    (code 34) and the single quote. *)
Definition entity (c : ascii) : option string :=
  if Ascii.eqb c "&" then Some "&amp;"
  else if Ascii.eqb c "<" then Some "&lt;"
  else if Ascii.eqb c ">" then Some "&gt;"
  else if Ascii.eqb c "034" then Some "&quot;"
  else if Ascii.eqb c "'" then Some "&#039;"
  else None.

Fixpoint escapeHtml (text : string) : string :=
  match text with
  | EmptyString => EmptyString
  | String c rest =>
      match entity c with
      | Some replacement => replacement +:+ escapeHtml rest
      | None => String c (escapeHtml rest)
      end
  end.

(** The array [this.currentItems] refers to: the very array the index keeps
    in [this.items], which [searchItems] hands out when it filters nothing,
    or an array of the page's own, which [filter] made. *)
Inductive array :=
| TheItems
| Own (elems : list Item.t).

(** [iconHtml] of a card: the image with its [src] and [alt], or the
    placeholder. *)
Inductive iconHtml :=
| Img (src : member) (alt : string)
| Placeholder.

(** What [createItemCard] puts into the markup of a card, and the id its
    click handler navigates to. *)
Record card := {
  target : string;
  icon : iconHtml;
  heading : string;
  item_type : string
}.

(** The grid: the no-data message or the cards appended to it. *)
Inductive grid :=
| NoData
| Cards (cards : list card).

Record app := {
  currentItems : array;
  currentQuery : string;
  currentTypeFilter : string;
  currentSort : string;
  itemsGrid : grid;
  itemCount : string
}.

Definition with_currentItems (v : array) (a : app) : app :=
  {| currentItems := v; currentQuery := currentQuery a;
     currentTypeFilter := currentTypeFilter a; currentSort := currentSort a;
     itemsGrid := itemsGrid a; itemCount := itemCount a |}.

Definition with_currentQuery (v : string) (a : app) : app :=
  {| currentItems := currentItems a; currentQuery := v;
     currentTypeFilter := currentTypeFilter a; currentSort := currentSort a;
     itemsGrid := itemsGrid a; itemCount := itemCount a |}.

Definition with_currentTypeFilter (v : string) (a : app) : app :=
  {| currentItems := currentItems a; currentQuery := currentQuery a;
     currentTypeFilter := v; currentSort := currentSort a;
     itemsGrid := itemsGrid a; itemCount := itemCount a |}.

Definition with_currentSort (v : string) (a : app) : app :=
  {| currentItems := currentItems a; currentQuery := currentQuery a;
     currentTypeFilter := currentTypeFilter a; currentSort := v;
     itemsGrid := itemsGrid a; itemCount := itemCount a |}.

Definition with_itemsGrid (v : grid) (a : app) : app :=
  {| currentItems := currentItems a; currentQuery := currentQuery a;
     currentTypeFilter := currentTypeFilter a; currentSort := currentSort a;
     itemsGrid := v; itemCount := itemCount a |}.

Definition with_itemCount (v : string) (a : app) : app :=
  {| currentItems := currentItems a; currentQuery := currentQuery a;
     currentTypeFilter := currentTypeFilter a; currentSort := currentSort a;
     itemsGrid := itemsGrid a; itemCount := v |}.

(** The elements of the array a reference points to. *)
Definition contents (reference : array) : M (list Item.t) :=
  match reference with
  | TheItems => this items
  | Own elems => ret elems
  end.

(** [array.sort(compare)] for a comparator that orders consistently: the
    sort is stable, so [x], taken from the front, goes before the first
    element it does not compare greater than. *)
Fixpoint sort_insert_by {A} (compare : A → A → Z) (x : A) (sorted : list A) : list A :=
  match sorted with
  | [] => [x]
  | y :: rest =>
      if (compare x y <=? 0)%Z then x :: y :: rest
      else y :: sort_insert_by compare x rest
  end.

Definition sort_by {A} (compare : A → A → Z) (elems : list A) : list A :=
  fold_right (sort_insert_by compare) [] elems.

Section Homepage.

(** [String.prototype.toLowerCase] and [String.prototype.localeCompare], the
    host's. *)
Variable toLowerCase : string → string.
Variable localeCompare : string → string → Z.

(** The comparator of [sortItems]; [x || y] on numbers is [y] when [x] is
    zero. *)
Definition compareItems (sortKey : string) (a b : Item.t) : Z :=
  if String.eqb sortKey "name" then
    localeCompare (Item.displayName a) (Item.displayName b)
  else if String.eqb sortKey "type" then
    let by_type := localeCompare (Item.type a) (Item.type b) in
    if (by_type =? 0)%Z
    then localeCompare (Item.displayName a) (Item.displayName b)
    else by_type
  else 0%Z.

(** The array [searchItems(query, typeFilter)] returns: [this.items] itself
    unless one of the two filters ran. *)
Definition searchItems_array (query typeFilter : string) : M array :=
  if truthy (Some typeFilter) || truthy (Some query) then
    found ⇐ searchItems toLowerCase query typeFilter ;; ret (Own found)
  else ret TheItems.

(** [sortItems()]: sorts the array [this.currentItems] refers to, in
    place. *)
Definition sortItems (a : app) : M app :=
  elems ⇐ contents (currentItems a) ;;
  let sorted := sort_by (compareItems (currentSort a)) elems in
  match currentItems a with
  | TheItems => assign (set_items sorted) ;; ret a
  | Own _ => ret (with_currentItems (Own sorted) a)
  end.

(** [createItemCard(item)] *)
Definition createItemCard (item : Item.t) : M card :=
  iconFilename ⇐ getItemIcon (Item.id item) ;;
  ret {| target := Item.id item;
         icon := match iconFilename with
                 | Val filename => Img filename (Item.displayName item)
                 | _ => Placeholder
                 end;
         heading := escapeHtml (Item.displayName item);
         item_type := escapeHtml (Item.type item) |}.

(** [renderItems()] *)
Definition renderItems (a : app) : M app :=
  elems ⇐ contents (currentItems a) ;;
  match elems with
  | [] => ret (with_itemsGrid NoData a)
  | _ =>
      cards ⇐ mapM elems createItemCard ;;
      ret (with_itemsGrid (Cards cards) a)
  end.

(** [updateItemCount()] *)
Definition updateItemCount (a : app) : M app :=
  all ⇐ getAllItems ;;
  elems ⇐ contents (currentItems a) ;;
  let total := length all in
  let filtered := length elems in
  if truthy (Some (currentQuery a)) || truthy (Some (currentTypeFilter a)) then
    ret (with_itemCount
           ("Showing " +:+ pretty filtered +:+ " of " +:+ pretty total +:+ " items") a)
  else
    ret (with_itemCount (pretty total +:+ " items total") a).

(** [displayItems()] *)
Definition displayItems (a : app) : M app :=
  found ⇐ searchItems_array (currentQuery a) (currentTypeFilter a) ;;
  a ⇐ sortItems (with_currentItems found a) ;;
  a ⇐ renderItems a ;;
  updateItemCount a.

(** [handleSearch(event)], [handleFilterChange(event)] and
    [handleSortChange(event)], given [event.target.value]. *)
Definition handleSearch (value : string) (a : app) : M app :=
  displayItems (with_currentQuery value a).

Definition handleFilterChange (value : string) (a : app) : M app :=
  displayItems (with_currentTypeFilter value a).

Definition handleSortChange (value : string) (a : app) : M app :=
  displayItems (with_currentSort value a).

End Homepage.

(** The page's own fields as the constructor sets them, with an empty grid
    and an empty item count. *)
Definition opened : app :=
  {| currentItems := Own []; currentQuery := ""; currentTypeFilter := "";
     currentSort := "name"; itemsGrid := Cards []; itemCount := "" |}.

(** A comparison of strings by code units, as a [localeCompare]. *)
Definition code_unit_compare (a b : string) : Z :=
  match String.compare a b with
  | Lt => (-1)%Z
  | Eq => 0%Z
  | Gt => 1%Z
  end.

(** Two recipes that differ at most in the crafting entity they were resolved
    to. *)
Definition same_recipe (r1 r2 : Recipe.t) : Prop :=
  Recipe.raw r1 = Recipe.raw r2
  ∧ Recipe.displayName r1 = Recipe.displayName r2
  ∧ Recipe.id r1 = Recipe.id r2
  ∧ Recipe.ingredients r1 = Recipe.ingredients r2
  ∧ Recipe.results r1 = Recipe.results r2.

(** What [renderItems] puts into the grid for the elements it finds. *)
Definition renders (elems : list Item.t) (g : grid) : Prop :=
  match elems with
  | [] => g = NoData
  | _ =>
      ∃ cards,
        g = Cards cards
        ∧ target <$> cards = Item.id <$> elems
        ∧ heading <$> cards = (λ item, escapeHtml (Item.displayName item)) <$> elems
        ∧ item_type <$> cards = (λ item, escapeHtml (Item.type item)) <$> elems
  end.

(** The text [updateItemCount] writes. *)
Definition count_text (q t : string) (filtered total : nat) : string :=
  if truthy (Some q) || truthy (Some t)
  then "Showing " +:+ pretty filtered +:+ " of " +:+ pretty total +:+ " items"
  else pretty total +:+ " items total".

(** * Properties *)

(** ** The monad *)

Lemma bind_returns {A B} (m : M A) (k : A → M B) st a st' :
  m st = (Returns a, st') → bind m k st = k a st'.
Proof. intros H. unfold bind. now rewrite H. Qed.

Lemma bind_throws {A B} (m : M A) (k : A → M B) st e st' :
  m st = (Throws e, st') → bind m k st = (Throws e, st').
Proof. intros H. unfold bind. now rewrite H. Qed.

Lemma readonly_ret {A} (a : A) : readonly (ret a).
Proof. intros st. reflexivity. Qed.

Lemma readonly_throw {A} e : readonly (@throw A e).
Proof. intros st. reflexivity. Qed.

Lemma readonly_this {A} (field : index → A) : readonly (this field).
Proof. intros st. reflexivity. Qed.

Lemma readonly_bind {A B} (m : M A) (k : A → M B) :
  readonly m → (∀ a, readonly (k a)) → readonly (bind m k).
Proof.
  intros Hm Hk st. unfold after, bind.
  specialize (Hm st). unfold after in Hm.
  destruct (m st) as [[a|e] st1]; simpl in Hm; subst st1.
  - apply Hk.
  - reflexivity.
Qed.

Lemma readonly_someM {A} (array : list A) (p : A → M bool) :
  (∀ x, readonly (p x)) → readonly (someM array p).
Proof.
  intros Hp. induction array as [|x rest IH]; simpl.
  - apply readonly_ret.
  - apply readonly_bind; [apply Hp|]. intros [|]; [apply readonly_ret | exact IH].
Qed.

Lemma readonly_findM {A} (array : list A) (p : A → M bool) :
  (∀ x, readonly (p x)) → readonly (findM array p).
Proof.
  intros Hp. induction array as [|x rest IH]; simpl.
  - apply readonly_ret.
  - apply readonly_bind; [apply Hp|]. intros [|]; [apply readonly_ret | exact IH].
Qed.

Lemma readonly_data_get key : readonly (data_get key).
Proof.
  apply readonly_bind; [apply readonly_this|].
  intros [doc|]; [apply readonly_ret | apply readonly_throw].
Qed.

Create HintDb readonly.
#[local] Hint Resolve readonly_ret readonly_throw readonly_this readonly_bind
  readonly_someM readonly_findM readonly_data_get : readonly.

Lemma truthy_spec s : truthy (Some s) = true ↔ s ≠ "".
Proof.
  unfold truthy. rewrite negb_true_iff. split.
  - intros H ->. discriminate.
  - intros H. apply String.eqb_neq, H.
Qed.

(** ** The load step *)

Lemma array_bucket_Some document key records :
  array_bucket document key = Some records
  ↔ document !! key = Some (PlainArray records).
Proof.
  unfold array_bucket.
  destruct (document !! key) as [[|elems|payload]|]; split; congruence.
Qed.

Lemma findCraftingEntity_resolve category st :
  findCraftingEntity category st = (Returns (resolve (craftingEntities st) category), st).
Proof.
  unfold findCraftingEntity, resolve.
  destruct category as [c|]; [|reflexivity].
  destruct (truthy (Some c)); [|reflexivity].
  unfold bind, this. destruct (List.find (handles c) (craftingEntities st)); reflexivity.
Qed.

Lemma make_recipe_recipe_of recipe st :
  make_recipe recipe st = (Returns (recipe_of (craftingEntities st) recipe), st).
Proof.
  unfold make_recipe.
  rewrite (bind_returns _ _ _ _ _ (findCraftingEntity_resolve _ st)). reflexivity.
Qed.

Lemma mapM_make_recipe records st :
  mapM records make_recipe st
  = (Returns (map (recipe_of (craftingEntities st)) records), st).
Proof.
  induction records as [|r rest IH]; simpl; [reflexivity|].
  rewrite (bind_returns _ _ _ _ _ (make_recipe_recipe_of r st)).
  rewrite (bind_returns _ _ _ _ _ IH). reflexivity.
Qed.

Lemma set_all_app {V} (key : V → string) (l1 l2 : list V) (m : gmap string V) :
  set_all key (l1 ++ l2) m = set_all key l2 (set_all key l1 m).
Proof. unfold set_all. apply fold_left_app. Qed.

Lemma forEach_itemLookup_set (typeItems : list Item.t) st :
  forEach typeItems (λ item,
    assign (λ st, set_itemLookup (<[Item.name item := item]> (itemLookup st)) st)) st
  = (Returns tt, set_itemLookup (set_all Item.name typeItems (itemLookup st)) st).
Proof.
  revert st. induction typeItems as [|item rest IH]; intros st; simpl.
  - destruct st; reflexivity.
  - unfold bind, assign at 1. rewrite IH. reflexivity.
Qed.

Lemma forEach_recipeLookup_set (rs : list Recipe.t) st :
  forEach rs (λ recipe,
    assign (λ st, set_recipeLookup (<[Recipe.name recipe := recipe]> (recipeLookup st)) st)) st
  = (Returns tt, set_recipeLookup (set_all Recipe.name rs (recipeLookup st)) st).
Proof.
  revert st. induction rs as [|r rest IH]; intros st; simpl.
  - destruct st; reflexivity.
  - unfold bind, assign at 1. rewrite IH. reflexivity.
Qed.

Lemma data_get_loaded document key st :
  data st = Some document → data_get key st = (Returns (document !! key), st).
Proof. intros H. unfold data_get, bind, this. rewrite H. reflexivity. Qed.

Lemma assign_returns update st : assign update st = (Returns tt, update st).
Proof. reflexivity. Qed.

(** One round of the item loop. *)
Lemma item_bucket document type st :
  data st = Some document →
  not_an_array document type = false →
  (bucket ⇐ data_get type ;;
   match bucket with
   | Some (PlainArray records) =>
       let typeItems := map (make_item type) records in
       assign (λ st, set_items (items st ++ typeItems) st) ;;
       forEach typeItems (λ item,
         assign (λ st, set_itemLookup (<[Item.name item := item]> (itemLookup st)) st))
   | Some (Wrapper _) => throw TypeError
   | _ => ret tt
   end) st
  = (Returns tt,
     match array_bucket document type with
     | Some records =>
         set_itemLookup
           (set_all Item.name (map (make_item type) records) (itemLookup st))
           (set_items (items st ++ map (make_item type) records) st)
     | None => st
     end).
Proof.
  intros Hdata Harray.
  rewrite (bind_returns _ _ _ _ _ (data_get_loaded document type st Hdata)).
  unfold not_an_array in Harray. unfold array_bucket.
  destruct (document !! type) as [[|records|payload]|];
    [reflexivity| |discriminate|reflexivity].
  cbv zeta. rewrite (bind_returns _ _ _ _ _ (assign_returns _ st)).
  rewrite forEach_itemLookup_set. reflexivity.
Qed.

(** A bucket that is not an array stops a round of any of the loops. *)
Lemma bucket_throws {A} document type
    (body : list Raw.record → M A) (otherwise : M A) st :
  data st = Some document →
  not_an_array document type = true →
  (bucket ⇐ data_get type ;;
   match bucket with
   | Some (PlainArray records) => body records
   | Some (Wrapper _) => throw TypeError
   | _ => otherwise
   end) st
  = (Throws TypeError, st).
Proof.
  intros Hdata Harray.
  rewrite (bind_returns _ _ _ _ _ (data_get_loaded document type st Hdata)).
  unfold not_an_array in Harray.
  destruct (document !! type) as [[|records|payload]|]; try discriminate.
  reflexivity.
Qed.

(** The item loop, from any index whose [data] is the dataset. *)
Lemma forEach_itemTypes document (types : list string) st :
  data st = Some document →
  existsb (not_an_array document) types = false →
  forEach types (λ type,
    bucket ⇐ data_get type ;;
    match bucket with
    | Some (PlainArray records) =>
        let typeItems := map (make_item type) records in
        assign (λ st, set_items (items st ++ typeItems) st) ;;
        forEach typeItems (λ item,
          assign (λ st, set_itemLookup (<[Item.name item := item]> (itemLookup st)) st))
    | Some (Wrapper _) => throw TypeError
    | _ => ret tt
    end) st
  = (Returns tt,
     set_itemLookup
       (set_all Item.name (flatten make_item document types) (itemLookup st))
       (set_items (items st ++ flatten make_item document types) st)).
Proof.
  revert st. induction types as [|type rest IH]; intros st Hdata Harrays.
  - simpl. rewrite app_nil_r. destruct st; reflexivity.
  - cbn [existsb] in Harrays. apply orb_false_iff in Harrays as [Harray Hrest].
    cbn [forEach flatten flat_map].
    rewrite (bind_returns _ _ _ _ _ (item_bucket document type st Hdata Harray)).
    destruct (array_bucket document type) as [records|].
    + rewrite IH by assumption. simpl.
      rewrite set_all_app, app_assoc. reflexivity.
    + apply IH; assumption.
Qed.

(** The item loop stops at the first item type whose bucket is not an
    array. *)
Lemma forEach_itemTypes_throws document (types : list string) st :
  data st = Some document →
  existsb (not_an_array document) types = true →
  ∃ st',
    forEach types (λ type,
      bucket ⇐ data_get type ;;
      match bucket with
      | Some (PlainArray records) =>
          let typeItems := map (make_item type) records in
          assign (λ st, set_items (items st ++ typeItems) st) ;;
          forEach typeItems (λ item,
            assign (λ st, set_itemLookup (<[Item.name item := item]> (itemLookup st)) st))
      | Some (Wrapper _) => throw TypeError
      | _ => ret tt
      end) st
    = (Throws TypeError, st').
Proof.
  revert st. induction types as [|type rest IH]; intros st Hdata Harrays.
  - discriminate.
  - cbn [existsb] in Harrays. cbn [forEach].
    destruct (not_an_array document type) eqn:Harray.
    + exists st.
      apply bind_throws, (bucket_throws document type _ _ st Hdata Harray).
    + rewrite (bind_returns _ _ _ _ _ (item_bucket document type st Hdata Harray)).
      apply IH; [|exact Harrays].
      destruct (array_bucket document type); exact Hdata.
Qed.

Lemma forEach_entities type (records : list Raw.record) st :
  forEach records (λ entity,
    let crafting := make_crafting type entity in
    assign (λ st, set_craftingEntities (craftingEntities st ++ [crafting]) st) ;;
    assign (λ st, set_craftingLookup (<[Raw.name entity := crafting]> (craftingLookup st)) st)) st
  = (Returns tt,
     set_craftingLookup
       (set_all (λ c, Raw.name (Crafting.raw c)) (map (make_crafting type) records)
                (craftingLookup st))
       (set_craftingEntities (craftingEntities st ++ map (make_crafting type) records) st)).
Proof.
  revert st. induction records as [|entity rest IH]; intros st; simpl.
  - rewrite app_nil_r. destruct st; reflexivity.
  - unfold bind at 1. cbv zeta. unfold bind at 1, assign at 1 2.
    rewrite IH. simpl. rewrite <- app_assoc. reflexivity.
Qed.

Lemma entity_bucket document type st :
  data st = Some document →
  not_an_array document type = false →
  (bucket ⇐ data_get type ;;
   match bucket with
   | Some (PlainArray records) =>
       forEach records (λ entity,
         let crafting := make_crafting type entity in
         assign (λ st, set_craftingEntities (craftingEntities st ++ [crafting]) st) ;;
         assign (λ st, set_craftingLookup (<[Raw.name entity := crafting]> (craftingLookup st)) st))
   | Some (Wrapper _) => throw TypeError
   | _ => ret tt
   end) st
  = (Returns tt,
     match array_bucket document type with
     | Some records =>
         set_craftingLookup
           (set_all (λ c, Raw.name (Crafting.raw c)) (map (make_crafting type) records)
                    (craftingLookup st))
           (set_craftingEntities
              (craftingEntities st ++ map (make_crafting type) records) st)
     | None => st
     end).
Proof.
  intros Hdata Harray.
  rewrite (bind_returns _ _ _ _ _ (data_get_loaded document type st Hdata)).
  unfold not_an_array in Harray. unfold array_bucket.
  destruct (document !! type) as [[|records|payload]|];
    [reflexivity| |discriminate|reflexivity].
  apply forEach_entities.
Qed.

Lemma forEach_entityTypes document (types : list string) st :
  data st = Some document →
  existsb (not_an_array document) types = false →
  forEach types (λ type,
    bucket ⇐ data_get type ;;
    match bucket with
    | Some (PlainArray records) =>
        forEach records (λ entity,
          let crafting := make_crafting type entity in
          assign (λ st, set_craftingEntities (craftingEntities st ++ [crafting]) st) ;;
          assign (λ st, set_craftingLookup (<[Raw.name entity := crafting]> (craftingLookup st)) st))
    | Some (Wrapper _) => throw TypeError
    | _ => ret tt
    end) st
  = (Returns tt,
     set_craftingLookup
       (set_all (λ c, Raw.name (Crafting.raw c))
                (flatten make_crafting document types) (craftingLookup st))
       (set_craftingEntities
          (craftingEntities st ++ flatten make_crafting document types) st)).
Proof.
  revert st. induction types as [|type rest IH]; intros st Hdata Harrays.
  - simpl. rewrite app_nil_r. destruct st; reflexivity.
  - cbn [existsb] in Harrays. apply orb_false_iff in Harrays as [Harray Hrest].
    cbn [forEach flatten flat_map].
    rewrite (bind_returns _ _ _ _ _ (entity_bucket document type st Hdata Harray)).
    destruct (array_bucket document type) as [records|].
    + rewrite IH by assumption. simpl.
      rewrite set_all_app, app_assoc. reflexivity.
    + apply IH; assumption.
Qed.

(** The entity loop stops at the first entity type whose bucket is not an
    array. *)
Lemma forEach_entityTypes_throws document (types : list string) st :
  data st = Some document →
  existsb (not_an_array document) types = true →
  ∃ st',
    forEach types (λ type,
      bucket ⇐ data_get type ;;
      match bucket with
      | Some (PlainArray records) =>
          forEach records (λ entity,
            let crafting := make_crafting type entity in
            assign (λ st, set_craftingEntities (craftingEntities st ++ [crafting]) st) ;;
            assign (λ st, set_craftingLookup (<[Raw.name entity := crafting]> (craftingLookup st)) st))
      | Some (Wrapper _) => throw TypeError
      | _ => ret tt
      end) st
    = (Throws TypeError, st').
Proof.
  revert st. induction types as [|type rest IH]; intros st Hdata Harrays.
  - discriminate.
  - cbn [existsb] in Harrays. cbn [forEach].
    destruct (not_an_array document type) eqn:Harray.
    + exists st.
      apply bind_throws, (bucket_throws document type _ _ st Hdata Harray).
    + rewrite (bind_returns _ _ _ _ _ (entity_bucket document type st Hdata Harray)).
      apply IH; [|exact Harrays].
      destruct (array_bucket document type); exact Hdata.
Qed.

(** The recipe step. *)
Lemma recipe_bucket document st :
  not_an_array document "recipe" = false →
  match document !! "recipe" with
  | Some (PlainArray records) =>
      processed ⇐ mapM records make_recipe ;;
      assign (set_recipes processed) ;;
      rs ⇐ this recipes ;;
      forEach rs (λ recipe,
        assign (λ st, set_recipeLookup (<[Recipe.name recipe := recipe]> (recipeLookup st)) st))
  | Some (Wrapper _) => throw TypeError
  | _ => ret tt
  end st
  = (Returns tt,
     match array_bucket document "recipe" with
     | Some records =>
         let rs := map (recipe_of (craftingEntities st)) records in
         set_recipeLookup (set_all Recipe.name rs (recipeLookup st)) (set_recipes rs st)
     | None => st
     end).
Proof.
  intros Harray.
  unfold not_an_array in Harray. unfold array_bucket.
  destruct (document !! "recipe") as [[|records|payload]|];
    [reflexivity| |discriminate|reflexivity].
  rewrite (bind_returns _ _ _ _ _ (mapM_make_recipe records st)).
  rewrite (bind_returns _ _ _ _ _ (assign_returns _ st)).
  unfold bind at 1, this at 1.
  rewrite forEach_recipeLookup_set. reflexivity.
Qed.

(** Whether a dataset is loadable, bucket by bucket in the order
    [processData] reads them. *)
Lemma loadable_spec document :
  loadable document
  ↔ existsb (not_an_array document) itemTypes = false
    ∧ not_an_array document "recipe" = false
    ∧ existsb (not_an_array document) entityTypes = false.
Proof.
  unfold loadable. split.
  - intros H. repeat match goal with |- _ ∧ _ => split end.
    + apply not_true_is_false. intros Hex.
      apply existsb_exists in Hex as (type & Hin & Htype).
      rewrite H in Htype; [discriminate|].
      apply elem_of_app. left. apply list_elem_of_In, Hin.
    + apply H. apply elem_of_app. right. left.
    + apply not_true_is_false. intros Hex.
      apply existsb_exists in Hex as (type & Hin & Htype).
      rewrite H in Htype; [discriminate|].
      apply elem_of_app. right. right. apply list_elem_of_In, Hin.
  - intros (Hitems & Hrecipe & Hentities) type Hin.
    apply not_true_is_false. intros Htype.
    apply elem_of_app in Hin as [Hin|Hin].
    + apply not_true_iff_false in Hitems. apply Hitems.
      apply existsb_exists. exists type. split; [apply list_elem_of_In, Hin|exact Htype].
    + apply elem_of_cons in Hin as [->|Hin]; [congruence|].
      apply not_true_iff_false in Hentities. apply Hentities.
      apply existsb_exists. exists type. split; [apply list_elem_of_In, Hin|exact Htype].
Qed.

Lemma loadable_dec document : {loadable document} + {¬ loadable document}.
Proof.
  destruct (existsb (not_an_array document) itemTypes) eqn:Hitems;
    [right; intros (? & ? & ?)%loadable_spec; congruence|].
  destruct (not_an_array document "recipe") eqn:Hrecipe;
    [right; intros (? & ? & ?)%loadable_spec; congruence|].
  destruct (existsb (not_an_array document) entityTypes) eqn:Hentities;
    [right; intros (? & ? & ?)%loadable_spec; congruence|].
  left. apply loadable_spec. auto.
Qed.

(** [processData] computes [processed] on a loadable dataset. *)
Lemma processData_processed document st :
  data st = Some document →
  loadable document →
  processData st = (Returns tt, processed document st).
Proof.
  intros Hdata (Hitems & Hrecipe & Hentities)%loadable_spec. unfold processData.
  rewrite (bind_returns _ _ _ _ _ (assign_returns _ st)).
  rewrite (bind_returns _ _ _ _ _
             (forEach_itemTypes document itemTypes (set_items [] st) Hdata Hitems)).
  match goal with |- bind _ _ ?s = _ => set (st2 := s) end.
  rewrite (bind_returns _ _ _ _ _ (data_get_loaded document "recipe" st2 Hdata)).
  rewrite (bind_returns _ _ _ _ _ (recipe_bucket document st2 Hrecipe)).
  match goal with |- bind _ _ ?s = _ => set (st3 := s) end.
  assert (H3 : data st3 = Some document).
  { subst st3. destruct (array_bucket document "recipe"); exact Hdata. }
  rewrite (bind_returns _ _ _ _ _ (assign_returns _ st3)).
  refine (eq_trans (forEach_entityTypes document entityTypes
                      (set_craftingEntities [] st3) H3 Hentities) _).
  f_equal. subst st3 st2. unfold processed.
  destruct st; simpl in Hdata; subst.
  destruct (array_bucket document "recipe"); reflexivity.
Qed.

(** [processData] throws on a dataset that is not loadable. *)
Lemma processData_throws document st :
  data st = Some document →
  ¬ loadable document →
  ∃ st', processData st = (Throws TypeError, st').
Proof.
  intros Hdata Hnot. unfold processData.
  rewrite (bind_returns _ _ _ _ _ (assign_returns _ st)).
  destruct (existsb (not_an_array document) itemTypes) eqn:Hitems.
  { destruct (forEach_itemTypes_throws document itemTypes (set_items [] st) Hdata Hitems)
      as [st' Hthrows].
    exists st'. apply bind_throws, Hthrows. }
  rewrite (bind_returns _ _ _ _ _
             (forEach_itemTypes document itemTypes (set_items [] st) Hdata Hitems)).
  match goal with |- ∃ _, bind _ _ ?s = _ => set (st2 := s) end.
  assert (H2 : data st2 = Some document) by exact Hdata.
  rewrite (bind_returns _ _ _ _ _ (data_get_loaded document "recipe" st2 H2)).
  destruct (not_an_array document "recipe") eqn:Hrecipe.
  { exists st2. unfold not_an_array in Hrecipe.
    destruct (document !! "recipe") as [[|records|payload]|]; try discriminate.
    reflexivity. }
  rewrite (bind_returns _ _ _ _ _ (recipe_bucket document st2 Hrecipe)).
  match goal with |- ∃ _, bind _ _ ?s = _ => set (st3 := s) end.
  assert (H3 : data st3 = Some document).
  { subst st3. destruct (array_bucket document "recipe"); exact H2. }
  rewrite (bind_returns _ _ _ _ _ (assign_returns _ st3)).
  destruct (existsb (not_an_array document) entityTypes) eqn:Hentities.
  { apply (forEach_entityTypes_throws document entityTypes
             (set_craftingEntities [] st3) H3 Hentities). }
  destruct Hnot. apply loadable_spec. auto.
Qed.

(** What [loadData] does once both documents have arrived. *)
Lemma loadData_processData document mapping st :
  loadData {| ultracube_organized_data := Json document; icon_mapping := Json mapping |} st
  = match processData (set_iconMapping mapping (set_data (Some document) st)) with
    | (Returns _, st') => (Returns true, st')
    | (Throws _, st') => (Returns false, st')
    end.
Proof.
  unfold loadData, try_catch. simpl.
  unfold bind at 1, ret at 1, bind at 1, assign at 1.
  unfold bind at 1, ret at 1, bind at 1, assign at 1.
  unfold bind at 1.
  destruct (processData _) as [[[]|e] st']; reflexivity.
Qed.

(** A load succeeds only when both documents arrive and the dataset is
    loadable, and then leaves [processed]. *)
Lemma loads_inv web st st' :
  loads web st st' →
  ∃ document mapping,
    ultracube_organized_data web = Json document
    ∧ icon_mapping web = Json mapping
    ∧ st' = processed document (set_iconMapping mapping (set_data (Some document) st)).
Proof.
  unfold loads. intros H.
  destruct web as [[| |document] [| |mapping]]; try discriminate H.
  exists document, mapping. split; [reflexivity|]. split; [reflexivity|].
  rewrite loadData_processData in H.
  destruct (loadable_dec document) as [Hload|Hload].
  - rewrite (processData_processed document) in H
      by first [reflexivity | exact Hload].
    congruence.
  - destruct (processData_throws document
                (set_iconMapping mapping (set_data (Some document) st)) eq_refl Hload)
      as [st'' Hthrows].
    rewrite Hthrows in H. discriminate H.
Qed.

Lemma loads_loadable web st st' :
  loads web st st' →
  ∃ document, ultracube_organized_data web = Json document ∧ loadable document.
Proof.
  unfold loads. intros H.
  destruct web as [[| |document] [| |mapping]]; try discriminate H.
  exists document. split; [reflexivity|].
  rewrite loadData_processData in H.
  destruct (loadable_dec document) as [Hload|Hload]; [exact Hload|].
  destruct (processData_throws document
              (set_iconMapping mapping (set_data (Some document) st)) eq_refl Hload)
    as [st'' Hthrows].
  rewrite Hthrows in H. discriminate H.
Qed.

Lemma loads_intro document mapping st :
  loadable document →
  loads {| ultracube_organized_data := Json document; icon_mapping := Json mapping |}
        st (processed document (set_iconMapping mapping (set_data (Some document) st))).
Proof.
  intros Hload. unfold loads. rewrite loadData_processData.
  rewrite (processData_processed document) by first [reflexivity | exact Hload].
  reflexivity.
Qed.

(** ** Normalisation of relation data *)

(** C7: a plain array and the wrapped form [{_array_items: [...]}] with the
    same elements normalise to the same sequence, namely those elements; a
    missing field and an object without [_array_items] normalise to the empty
    sequence.  The same holds for categories. *)
Theorem extract_dual_form {A} (elems : list A) :
  extractItems (PlainArray elems) = extractItems (Wrapper (Some elems))
  ∧ extractItems (PlainArray elems) = elems
  ∧ extractItems (@Missing A) = []
  ∧ extractItems (@Wrapper A None) = []
  ∧ extractCategories (PlainArray elems) = extractCategories (Wrapper (Some elems))
  ∧ extractCategories (PlainArray elems) = elems
  ∧ extractCategories (@Missing A) = []
  ∧ extractCategories (@Wrapper A None) = [].
Proof. repeat split. Qed.

(** ** A failed load *)

(** C2, as stated, fails: when the dataset arrives and the icon mapping does
    not, [loadData] returns [false] but has already assigned [this.data]. *)
Lemma loadData_failure_keeps_dataset :
  failed (icon_mapping iconless_site)
  ∧ result (loadData iconless_site) constructor = Returns false
  ∧ after (loadData iconless_site) constructor ≠ constructor.
Proof.
  split; [exact I|]. split; [vm_compute; reflexivity|].
  intros H. apply (f_equal (λ s, bool_decide (data s = None))) in H.
  vm_compute in H. discriminate H.
Qed.

(** C2, amended: when either document fails to arrive or to parse,
    [loadData] returns [false] and leaves [items], [recipes],
    [craftingEntities], the three lookups and [iconMapping] as they were;
    [data] is as it was when the dataset document failed, and is the parsed
    dataset when only the icon mapping failed. *)
Theorem loadData_failure web st :
  failed (ultracube_organized_data web) ∨ failed (icon_mapping web) →
  let st' := after (loadData web) st in
  result (loadData web) st = Returns false
  ∧ recipes st' = recipes st
  ∧ items st' = items st
  ∧ craftingEntities st' = craftingEntities st
  ∧ recipeLookup st' = recipeLookup st
  ∧ itemLookup st' = itemLookup st
  ∧ craftingLookup st' = craftingLookup st
  ∧ iconMapping st' = iconMapping st
  ∧ data st' = match ultracube_organized_data web with
               | Json document => Some document
               | _ => data st
               end
  ∧ (failed (ultracube_organized_data web) → st' = st).
Proof.
  intros Hfail. unfold result, after, loadData, try_catch.
  destruct web as [dataset_doc icon_doc]; simpl in *.
  destruct dataset_doc as [| |document]; simpl.
  - repeat split; reflexivity.
  - repeat split; reflexivity.
  - destruct Hfail as [[]|Hicon].
    destruct icon_doc as [| |mapping]; simpl in *; [| |contradiction];
      (repeat split; try reflexivity; intros []).
Qed.

Lemma loadData_failure_witness :
  (failed (ultracube_organized_data iconless_site) ∨ failed (icon_mapping iconless_site))
  ∧ result (loadData iconless_site) constructor = Returns false
  ∧ items (after (loadData iconless_site) constructor) = items constructor
  ∧ data (after (loadData iconless_site) constructor) = Some sample.
Proof.
  assert (H : failed (ultracube_organized_data iconless_site)
              ∨ failed (icon_mapping iconless_site)) by (right; exact I).
  split; [exact H|].
  destruct (loadData_failure iconless_site constructor H)
    as (Hres & _ & Hitems & _ & _ & _ & _ & _ & Hdata & _).
  split; [exact Hres|]. split; [exact Hitems|]. exact Hdata.
Defined.

(** ** Resolution of crafting entities *)

(** On an index fresh from the constructor, no recipe is resolved to a
    declared entity: the recipe step runs while [this.craftingEntities] is
    still empty. *)
Lemma fresh_load_resolves_nothing web st' :
  loads web constructor st' →
  ∀ recipe, recipe ∈ recipes st' →
    Recipe.craftingEntity recipe = resolve [] (Recipe.category recipe).
Proof.
  intros Hload recipe Hin.
  destruct (loads_inv _ _ _ Hload) as (document & mapping & _ & _ & ->).
  simpl in Hin. destruct (array_bucket document "recipe") as [records|].
  - apply list_elem_of_fmap in Hin as (raw & -> & _). reflexivity.
  - apply elem_of_nil in Hin. contradiction.
Qed.

(** C1, at the sample dataset: the load succeeds, the furnace that handles
    [smelting] is among the crafting entities, and yet the recipe of category
    [smelting] carries the placeholder of the fallback table. *)
Theorem findCraftingEntity_misses_declared_furnace :
  let st' := after (loadData sample_site) constructor in
  result (loadData sample_site) constructor = Returns true
  ∧ Recipe.category <$> recipes st' = [Some "smelting"]
  ∧ List.find (handles "smelting") (craftingEntities st')
    = Some (make_crafting "furnace" stone_furnace)
  ∧ Recipe.craftingEntity <$> recipes st'
    = [Val {| EntityRef.name := Text "Furnace";
              EntityRef.id := "smelting";
              EntityRef.type := "category" |}].
Proof. vm_compute. repeat split. Qed.

(** ** What [findCraftingEntity] does with the entities it is given *)

(** The reference made from a declared entity. *)
Lemma resolve_first_match entities before entity later (c : string) :
  c ≠ "" →
  entities = before ++ entity :: later →
  (∀ e, e ∈ before → handles c e = false) →
  handles c entity = true →
  resolve entities (Some c)
  = Val {| EntityRef.name := Text (Crafting.displayName entity);
           EntityRef.id := Crafting.id entity;
           EntityRef.type := Crafting.type entity |}.
Proof.
  intros Hc -> Hbefore Hentity. unfold resolve.
  apply truthy_spec in Hc. rewrite Hc.
  replace (List.find (handles c) (before ++ entity :: later)) with (Some entity);
    [reflexivity|].
  symmetry. induction before as [|e before IH]; simpl.
  - now rewrite Hentity.
  - rewrite (Hbefore e) by left. apply IH. intros e' He'. apply Hbefore. now right.
Qed.

(** The placeholder, when no entity handles the category. *)
Lemma resolve_fallback entities (c : string) :
  c ≠ "" →
  (∀ e, e ∈ entities → handles c e = false) →
  ∃ label,
    resolve entities (Some c)
    = Val {| EntityRef.name := label; EntityRef.id := c; EntityRef.type := "category" |}
    ∧ (∀ human, categoryMappings !! c = Some human → label = Text human)
    ∧ (categoryMappings !! c = None → c ∉ objectPrototype →
       label = Text (capitalize_words (dashes_to_spaces c))).
Proof.
  intros Hc Hnone. unfold resolve.
  apply truthy_spec in Hc. rewrite Hc.
  replace (List.find (handles c) entities) with (@None Crafting.t).
  - eexists. split; [reflexivity|]. unfold object_get. split.
    + intros human ->. reflexivity.
    + intros -> Hproto.
      destruct (existsb (String.eqb c) objectPrototype) eqn:E; [|reflexivity].
      apply existsb_exists in E as (key & Hkey & Heq).
      apply String.eqb_eq in Heq. subst key.
      apply list_elem_of_In in Hkey. contradiction.
  - symmetry. induction entities as [|e rest IH]; simpl; [reflexivity|].
    rewrite (Hnone e) by left. apply IH. intros e' He'. apply Hnone. now right.
Qed.

(** The three placeholders the specification lists, and a category that names
    an inherited member. *)
Example resolve_smelting :
  resolve [] (Some "smelting")
  = Val {| EntityRef.name := Text "Furnace"; EntityRef.id := "smelting";
           EntityRef.type := "category" |}.
Proof. vm_compute. reflexivity. Qed.

Example resolve_widget_forging :
  resolve [] (Some "widget-forging")
  = Val {| EntityRef.name := Text "Widget Forging"; EntityRef.id := "widget-forging";
           EntityRef.type := "category" |}.
Proof. vm_compute. reflexivity. Qed.

Example resolve_empty_category : resolve [] (Some "") = Null.
Proof. reflexivity. Qed.

Example resolve_constructor :
  resolve [] (Some "constructor")
  = Val {| EntityRef.name := Inherited "constructor"; EntityRef.id := "constructor";
           EntityRef.type := "category" |}.
Proof. vm_compute. reflexivity. Qed.

(** A second load on the same index resolves against the entities the first
    load left. *)
Example second_load_resolves_from_first :
  Recipe.craftingEntity
    <$> recipes (after (loadData sample_site) (after (loadData sample_site) constructor))
  = [Val {| EntityRef.name := Text "Stone Furnace"; EntityRef.id := "stone-furnace";
            EntityRef.type := "furnace" |}].
Proof. vm_compute. reflexivity. Qed.

(** ** Queries leave the index alone *)

Lemma readonly_unlocks itemName effect : readonly (unlocks itemName effect).
Proof.
  unfold unlocks. destruct (String.eqb _ _); [|apply readonly_ret].
  apply readonly_bind.
  - destruct (Effect.recipe effect); [|apply readonly_ret].
    unfold getRecipe. auto with readonly.
  - intros [| |recipe]; apply readonly_ret.
Qed.

(** C10: every query method leaves every field of the index as it found it,
    whatever the index and whatever it returns or throws. *)
Theorem queries_readonly :
  (∀ itemName, readonly (getItem itemName))
  ∧ (∀ recipeName, readonly (getRecipe recipeName))
  ∧ (∀ entityName, readonly (getCraftingEntity entityName))
  ∧ (∀ itemName, readonly (getRecipesThatMake itemName))
  ∧ (∀ itemName, readonly (getRecipesThatUse itemName))
  ∧ (∀ entityName, readonly (getRecipesCraftableBy entityName))
  ∧ (∀ itemName, readonly (getTechnologyThatUnlocks itemName))
  ∧ readonly getItemTypes
  ∧ (∀ toLowerCase query typeFilter, readonly (searchItems toLowerCase query typeFilter))
  ∧ (∀ itemName, readonly (getItemIcon itemName)).
Proof.
  repeat match goal with |- _ ∧ _ => split end; intros.
  - unfold getItem. auto with readonly.
  - unfold getRecipe. auto with readonly.
  - unfold getCraftingEntity. auto with readonly.
  - unfold getRecipesThatMake. auto with readonly.
  - unfold getRecipesThatUse. auto with readonly.
  - unfold getRecipesCraftableBy. apply readonly_bind; [apply readonly_this|].
    intros lookup. destruct (Map_get lookup entityName); auto with readonly.
  - unfold getTechnologyThatUnlocks. apply readonly_bind; [apply readonly_data_get|].
    intros [[|technology|payload]|];
      [apply readonly_ret| |apply readonly_throw|apply readonly_ret].
    apply readonly_findM. intros tech.
    destruct (Raw.effects tech); try apply readonly_ret;
      apply readonly_someM, readonly_unlocks.
  - unfold getItemTypes. apply readonly_bind; [apply readonly_this|].
    intros [document|]; [apply readonly_ret | apply readonly_throw].
  - unfold searchItems. auto with readonly.
  - unfold getItemIcon. apply readonly_bind; [apply readonly_this|].
    intros mapping. destruct (object_get mapping itemName) as [| |[s|key]];
      try apply readonly_ret.
    destruct (truthy (Some s)); apply readonly_ret.
Qed.

(** ** Recipe queries *)

Lemma names_spec itemName entries :
  names itemName entries = true
  ↔ ∃ entry, entry ∈ entries ∧ Entry.name entry = itemName.
Proof.
  unfold names. rewrite existsb_exists. split.
  - intros (e & Hin & Heq). exists e. split; [now apply list_elem_of_In|].
    now apply String.eqb_eq.
  - intros (e & Hin & Heq). exists e. split; [now apply list_elem_of_In|].
    now apply String.eqb_eq.
Qed.

Lemma array_includes_spec array x :
  array_includes array x = true ↔ ∃ s, x = Some s ∧ s ∈ array.
Proof.
  unfold array_includes. destruct x as [s|].
  - rewrite existsb_exists. split.
    + intros (y & Hin & Heq). apply String.eqb_eq in Heq. subst y.
      exists s. split; [reflexivity | now apply list_elem_of_In].
    + intros (y & [= <-] & Hin). exists s. split; [now apply list_elem_of_In|].
      apply String.eqb_refl.
  - split; [discriminate | intros (s & [=] & _)].
Qed.

Lemma elem_of_filter {A} (p : A → bool) (l : list A) x :
  x ∈ List.filter p l ↔ x ∈ l ∧ p x = true.
Proof. rewrite !list_elem_of_In. apply filter_In. Qed.

Lemma filter_sublist {A} (p : A → bool) (l : list A) : sublist (List.filter p l) l.
Proof.
  induction l as [|x l IH]; simpl; [constructor|].
  destruct (p x); now constructor.
Qed.

(** After a load the recipes are the records of the [recipe] bucket, in the
    order of the document. *)
Lemma loads_recipes_order web st st' document records :
  loads web st st' →
  ultracube_organized_data web = Json document →
  document !! "recipe" = Some (PlainArray records) →
  Recipe.raw <$> recipes st' = records.
Proof.
  intros Hload Hdoc Hrec%array_bucket_Some.
  destruct (loads_inv _ _ _ Hload) as (document' & mapping & Hdoc' & _ & ->).
  rewrite Hdoc in Hdoc'. injection Hdoc' as <-.
  simpl. rewrite Hrec. clear Hrec.
  induction records as [|r rest IH]; simpl; [reflexivity|].
  f_equal. exact IH.
Qed.

(** C3: after a successful load, a recipe of the index is returned by
    [getRecipesThatMake x] exactly when one of its results is named [x], and by
    [getRecipesThatUse x] exactly when one of its ingredients is; both answers
    list recipes in the order of the index, which is the order of the
    document. *)
Theorem recipes_that_make_and_use web st st' (x : string) :
  loads web st st' →
  ∃ makers users,
    result (getRecipesThatMake x) st' = Returns makers
    ∧ result (getRecipesThatUse x) st' = Returns users
    ∧ (∀ r, r ∈ recipes st' →
         (r ∈ makers ↔ ∃ e, e ∈ Recipe.results r ∧ Entry.name e = x)
         ∧ (r ∈ users ↔ ∃ e, e ∈ Recipe.ingredients r ∧ Entry.name e = x))
    ∧ sublist makers (recipes st')
    ∧ sublist users (recipes st')
    ∧ (∀ document records,
         ultracube_organized_data web = Json document →
         document !! "recipe" = Some (PlainArray records) →
         Recipe.raw <$> recipes st' = records).
Proof.
  intros Hload.
  exists (List.filter (λ recipe, names x (Recipe.results recipe)) (recipes st')),
         (List.filter (λ recipe, names x (Recipe.ingredients recipe)) (recipes st')).
  split; [reflexivity|]. split; [reflexivity|]. split.
  { intros r Hr. rewrite !elem_of_filter, !names_spec. tauto. }
  split; [apply filter_sublist|]. split; [apply filter_sublist|].
  intros document records Hdoc Hrec.
  exact (loads_recipes_order _ _ _ _ _ Hload Hdoc Hrec).
Qed.

Lemma recipes_that_make_and_use_witness :
  loads sample_site constructor (after (loadData sample_site) constructor)
  ∧ ∃ makers users,
      result (getRecipesThatMake "iron-plate") (after (loadData sample_site) constructor)
      = Returns makers
      ∧ result (getRecipesThatUse "iron-plate") (after (loadData sample_site) constructor)
        = Returns users
      ∧ length makers = 1 ∧ length users = 0.
Proof.
  assert (H : loads sample_site constructor (after (loadData sample_site) constructor))
    by (vm_compute; reflexivity).
  split; [exact H|].
  destruct (recipes_that_make_and_use sample_site constructor _ "iron-plate" H)
    as (makers & users & Hm & Hu & _).
  exists makers, users. split; [exact Hm|]. split; [exact Hu|].
  vm_compute in Hm, Hu.
  injection Hm as <-. injection Hu as <-. split; reflexivity.
Defined.

(** C4: after a successful load, [getRecipesCraftableBy e] returns the empty
    list when no entity is indexed under [e]; otherwise it returns, in index
    order, exactly the recipes whose category is among the categories of the
    entity indexed under [e], which is the empty list when that entity has no
    categories. *)
Theorem recipes_craftable_by web st st' (e : string) :
  loads web st st' →
  (craftingLookup st' !! e = None →
     result (getRecipesCraftableBy e) st' = Returns [])
  ∧ (∀ entity, craftingLookup st' !! e = Some entity →
       ∃ craftable,
         result (getRecipesCraftableBy e) st' = Returns craftable
         ∧ (∀ r, r ∈ craftable ↔
                 r ∈ recipes st'
                 ∧ ∃ c, Recipe.category r = Some c ∧ c ∈ Crafting.categories entity)
         ∧ sublist craftable (recipes st')
         ∧ (Crafting.categories entity = [] → craftable = [])).
Proof.
  intros _. unfold result, getRecipesCraftableBy, bind, this, Map_get. simpl. split.
  - intros ->. reflexivity.
  - intros entity ->. simpl. eexists. split; [reflexivity|]. split; [|split].
    + intros r. rewrite elem_of_filter, array_includes_spec. reflexivity.
    + apply filter_sublist.
    + intros ->. induction (recipes st') as [|r rest IH]; simpl.
      * reflexivity.
      * destruct (Recipe.category r); exact IH.
Qed.

Lemma recipes_craftable_by_witness :
  loads sample_site constructor (after (loadData sample_site) constructor)
  ∧ result (getRecipesCraftableBy "assembling-machine-1")
           (after (loadData sample_site) constructor) = Returns []
  ∧ ∃ craftable,
      result (getRecipesCraftableBy "stone-furnace")
             (after (loadData sample_site) constructor) = Returns craftable
      ∧ Recipe.id <$> craftable = ["iron-plate"].
Proof.
  assert (H : loads sample_site constructor (after (loadData sample_site) constructor))
    by (vm_compute; reflexivity).
  split; [exact H|].
  destruct (recipes_craftable_by sample_site constructor _ "assembling-machine-1" H)
    as [Hnone _].
  split; [apply Hnone; reflexivity|].
  destruct (recipes_craftable_by sample_site constructor _ "stone-furnace" H)
    as [_ Hsome].
  destruct (Hsome (make_crafting "furnace" stone_furnace) eq_refl)
    as (craftable & Hres & _).
  exists craftable. split; [exact Hres|].
  vm_compute in Hres. injection Hres as <-. reflexivity.
Defined.

(** ** Search *)

Lemma startsWith_spec s q :
  startsWith s q = true ↔ ∃ later, s = q +:+ later.
Proof.
  revert s. induction q as [|a q IH]; intros s; simpl.
  - split; [intros _; now exists s | reflexivity].
  - destruct s as [|b s]; simpl.
    + split; [discriminate | intros (later & [=])].
    + rewrite andb_true_iff, Ascii.eqb_eq, IH. split.
      * intros (-> & later & ->). now exists later.
      * intros (later & [= -> ->]). split; [reflexivity | now exists later].
Qed.

Lemma includes_spec s q :
  includes s q = true ↔ ∃ before later, s = before +:+ q +:+ later.
Proof.
  induction s as [|b s IH]; simpl.
  - rewrite orb_false_r, startsWith_spec. split.
    + intros (later & H). now exists EmptyString, later.
    + intros ([|c before] & later & H); simpl in H; [now exists later | discriminate].
  - rewrite orb_true_iff, IH, (startsWith_spec (String b s)). split.
    + intros [(later & H) | (before & later & ->)].
      * now exists EmptyString, later.
      * now exists (String b before), later.
    + intros ([|c before] & later & H); simpl in H.
      * left. now exists later.
      * right. injection H as -> ->. now exists before, later.
Qed.

Lemma elem_of_flatten {B} (make : string → Raw.record → B) document types b :
  b ∈ flatten make document types
  ↔ ∃ type records r,
      type ∈ types ∧ document !! type = Some (PlainArray records)
      ∧ r ∈ records ∧ b = make type r.
Proof.
  unfold flatten. rewrite list_elem_of_In, in_flat_map. split.
  - intros (type & Htype & Hb).
    destruct (array_bucket document type) as [records|] eqn:E.
    + apply in_map_iff in Hb as (r & <- & Hr). apply array_bucket_Some in E.
      exists type, records, r. rewrite !list_elem_of_In. auto.
    + destruct Hb.
  - intros (type & records & r & Htype & E%array_bucket_Some & Hr & ->).
    exists type. rewrite E. split; [now apply list_elem_of_In|].
    apply in_map. now apply list_elem_of_In.
Qed.

(** After a load every item is indexed under its [id]. *)
Lemma loads_items web st st' :
  loads web st st' →
  ∃ document,
    ultracube_organized_data web = Json document
    ∧ items st' = flatten make_item document itemTypes
    ∧ itemLookup st' = set_all Item.name (items st') (itemLookup st)
    ∧ ∀ item, item ∈ items st' → Item.name item = Item.id item.
Proof.
  intros Hload.
  destruct (loads_inv _ _ _ Hload) as (document & mapping & Hdoc & _ & ->).
  exists document. split; [exact Hdoc|]. split; [reflexivity|]. split; [reflexivity|].
  intros item Hin.
  apply (elem_of_flatten make_item document itemTypes) in Hin
    as (type & records & r & _ & _ & _ & ->).
  reflexivity.
Qed.

Section SearchSpec.

Variable toLowerCase : string → string.

Lemma matches_spec q item :
  matches toLowerCase (toLowerCase q) item = true
  ↔ mentions toLowerCase (Item.displayName item) q
    ∨ mentions toLowerCase (Item.name item) q.
Proof. unfold matches, mentions. rewrite orb_true_iff, !includes_spec. reflexivity. Qed.


(** C8: after a successful load, [searchItems("", "")] returns the collection
    [getAllItems] returns, the flattened item-like buckets of the dataset; and [searchItems(q, t)] returns exactly the items
    whose type is [t], when [t] is not empty, and whose [displayName] or [id]
    mentions [q] regardless of case, when [q] is not empty. *)
Theorem searchItems_spec web st st' :
  loads web st st' →
  ∃ document all,
    ultracube_organized_data web = Json document
    ∧ all = flatten make_item document itemTypes
    ∧ result getAllItems st' = Returns all
    ∧ result (searchItems toLowerCase "" "") st' = Returns all
    ∧ ∀ q t, ∃ found,
        result (searchItems toLowerCase q t) st' = Returns found
        ∧ ∀ item,
            item ∈ found
            ↔ item ∈ all
              ∧ (t ≠ "" → Item.type item = t)
              ∧ (q ≠ "" → mentions toLowerCase (Item.displayName item) q
                          ∨ mentions toLowerCase (Item.id item) q).
Proof.
  intros Hload.
  destruct (loads_items _ _ _ Hload) as (document & Hdoc & Hitems & _ & Hid).
  exists document, (items st'). split; [exact Hdoc|]. split; [exact Hitems|].
  split; [reflexivity|]. split; [reflexivity|].
  intros q t. eexists. split; [reflexivity|]. intros item.
  destruct (truthy (Some q)) eqn:Hq, (truthy (Some t)) eqn:Ht.
  - apply truthy_spec in Hq, Ht.
    rewrite !elem_of_filter, matches_spec, String.eqb_eq. split.
    + intros [[Hin Htype] Hm]. rewrite <- (Hid item Hin). tauto.
    + intros (Hin & Htype & Hm). rewrite <- (Hid item Hin) in Hm. tauto.
  - apply truthy_spec in Hq.
    assert (t = "") as -> by (destruct (decide (t = "")) as [|n]; [easy|];
                              apply truthy_spec in n; congruence).
    rewrite elem_of_filter, matches_spec. split.
    + intros [Hin Hm]. rewrite <- (Hid item Hin). tauto.
    + intros (Hin & _ & Hm). rewrite <- (Hid item Hin) in Hm. tauto.
  - apply truthy_spec in Ht.
    assert (q = "") as -> by (destruct (decide (q = "")) as [|n]; [easy|];
                              apply truthy_spec in n; congruence).
    rewrite elem_of_filter, String.eqb_eq. tauto.
  - assert (q = "") as -> by (destruct (decide (q = "")) as [|n]; [easy|];
                              apply truthy_spec in n; congruence).
    assert (t = "") as -> by (destruct (decide (t = "")) as [|n]; [easy|];
                              apply truthy_spec in n; congruence).
    tauto.
Qed.

End SearchSpec.

Lemma searchItems_spec_witness :
  loads sample_site constructor (after (loadData sample_site) constructor)
  ∧ ∃ all,
      result getAllItems (after (loadData sample_site) constructor) = Returns all
      ∧ result (searchItems ascii_lower "" "") (after (loadData sample_site) constructor)
        = Returns all
      ∧ ∃ found,
          result (searchItems ascii_lower "IRON" "item")
                 (after (loadData sample_site) constructor) = Returns found
          ∧ Item.id <$> found = ["iron-plate"; "iron-ore"].
Proof.
  assert (H : loads sample_site constructor (after (loadData sample_site) constructor))
    by (vm_compute; reflexivity).
  split; [exact H|].
  destruct (searchItems_spec ascii_lower sample_site constructor _ H)
    as (document & all & _ & _ & Hall & Hempty & Hsearch).
  exists all. split; [exact Hall|]. split; [exact Hempty|].
  destruct (Hsearch "IRON" "item") as (found & Hfound & _).
  exists found. split; [exact Hfound|].
  vm_compute in Hfound. injection Hfound as <-. reflexivity.
Defined.

(** ** The item index *)

Lemma set_all_lookup {V} (key : V → string) (values : list V) (m : gmap string V) k :
  set_all key values m !! k
  = match latest key k values with
    | Some v => Some v
    | None => m !! k
    end.
Proof.
  revert m. induction values as [|v rest IH]; intros m; [reflexivity|].
  change (set_all key (v :: rest) m) with (set_all key rest (<[key v := v]> m)).
  rewrite IH. unfold latest. simpl.
  destruct (String.eqb (key v) k) eqn:E.
  - apply String.eqb_eq in E. rewrite last_cons.
    destruct (last (List.filter _ rest)); [reflexivity|].
    rewrite E. apply lookup_insert_eq.
  - apply String.eqb_neq in E.
    destruct (last (List.filter _ rest)); [reflexivity|].
    now apply lookup_insert_ne.
Qed.

Lemma latest_ext {V} (key key' : V → string) k (values : list V) :
  (∀ v, v ∈ values → key v = key' v) → latest key k values = latest key' k values.
Proof.
  intros H. unfold latest. f_equal. apply filter_ext_in.
  intros v Hv. apply list_elem_of_In in Hv. now rewrite (H v Hv).
Qed.

Lemma latest_split {V} (key : V → string) (before later : list V) v :
  (∀ w, w ∈ later → key w ≠ key v) →
  latest key (key v) (before ++ v :: later) = Some v.
Proof.
  intros Hlater. unfold latest. rewrite List.filter_app. simpl.
  rewrite String.eqb_refl.
  replace (List.filter (λ w, String.eqb (key w) (key v)) later) with (@nil V).
  - apply last_snoc.
  - symmetry. induction later as [|w later IH]; simpl; [reflexivity|].
    destruct (String.eqb (key w) (key v)) eqn:E.
    + apply String.eqb_eq in E. destruct (Hlater w); [left | exact E].
    + apply IH. intros w' Hw'. apply Hlater. now right.
Qed.

(** What [getItem] finds after a load. *)
Lemma loads_getItem web st st' document (x : string) :
  loads web st st' →
  ultracube_organized_data web = Json document →
  items st' = flatten make_item document itemTypes
  ∧ result (getItem x) st'
    = Returns match latest Item.id x (flatten make_item document itemTypes) with
              | Some item => Val item
              | None => Map_get (itemLookup st) x
              end.
Proof.
  intros Hload Hdoc.
  destruct (loads_items _ _ _ Hload) as (document' & Hdoc' & Hitems & Hlookup & Hid).
  rewrite Hdoc in Hdoc'. injection Hdoc' as <-.
  split; [exact Hitems|].
  unfold result, getItem, bind, this, Map_get. simpl.
  rewrite Hlookup, set_all_lookup, (latest_ext Item.name Item.id x _ Hid), Hitems.
  destruct (latest Item.id x _); reflexivity.
Qed.

(** C9, as stated, fails: an id declared in two buckets gives two records with
    that id in the collection [getAllItems] returns. *)
Lemma getAllItems_repeats_id :
  loads clashing_site constructor (after (loadData clashing_site) constructor)
  ∧ ∃ solid liquid,
      result getAllItems (after (loadData clashing_site) constructor)
      = Returns [solid; liquid]
      ∧ Item.id solid = Item.id liquid.
Proof.
  split; [vm_compute; reflexivity|].
  eexists _, _. split; vm_compute; reflexivity.
Qed.

(** C9, amended: after a successful load the collection [getAllItems] and
    [searchItems("", "")] return holds every record of every item-like bucket,
    in bucket order, so an id declared twice occurs twice in it; the lookup
    holds one record per id, and [getItem x] returns the last record of the
    collection whose id is [x] (or, when there is none, what the lookup held
    for [x] before the load). *)
Theorem getItem_last_writer web st st' document (x : string) :
  loads web st st' →
  ultracube_organized_data web = Json document →
  ∃ all,
    result getAllItems st' = Returns all
    ∧ (∀ toLowerCase, result (searchItems toLowerCase "" "") st' = Returns all)
    ∧ all = flatten make_item document itemTypes
    ∧ result (getItem x) st'
      = Returns match latest Item.id x all with
                | Some item => Val item
                | None => Map_get (itemLookup st) x
                end.
Proof.
  intros Hload Hdoc.
  destruct (loads_getItem web st st' document x Hload Hdoc) as [Hitems Hget].
  exists (items st'). split; [reflexivity|]. split; [reflexivity|].
  split; [exact Hitems|]. rewrite Hitems. exact Hget.
Qed.

Lemma getItem_last_writer_witness :
  loads clashing_site constructor (after (loadData clashing_site) constructor)
  ∧ ultracube_organized_data clashing_site = Json clashing
  ∧ result (getItem "cube") (after (loadData clashing_site) constructor)
    = Returns (Val (make_item "fluid" (record "cube" (Some "Liquid Cube")))).
Proof.
  assert (H : loads clashing_site constructor (after (loadData clashing_site) constructor))
    by (vm_compute; reflexivity).
  split; [exact H|]. split; [reflexivity|].
  destruct (getItem_last_writer clashing_site constructor _ clashing "cube" H eq_refl)
    as (all & _ & _ & -> & Hget).
  exact Hget.
Defined.

(** C6, as stated, fails: the record [cube] of the [item] bucket has the
    cleaned name ["Cube"], but [getItem("cube")] carries the display name of
    the [fluid] record written after it. *)
Lemma getItem_displayName_shadowed :
  loads clashing_site constructor (after (loadData clashing_site) constructor)
  ∧ declared clashing itemTypes (record "cube" (Some "Cube"))
  ∧ ∃ item,
      result (getItem "cube") (after (loadData clashing_site) constructor)
      = Returns (Val item)
      ∧ Item.displayName item ≠ "Cube".
Proof.
  split; [vm_compute; reflexivity|]. split.
  - exists "item", [record "cube" (Some "Cube")].
    split; [left|]. split; [vm_compute; reflexivity | left].
  - eexists. split; [vm_compute; reflexivity|]. discriminate.
Qed.

(** C6, amended: for every record [i] of an item-like bucket that no later
    record (in bucket order, then array order) shares its id with,
    [getItem(i.name)] returns the item made from [i], whose [displayName] is
    [i.cleaned_name] when that is present and not empty, and the raw id
    [i.name] otherwise. *)
Theorem getItem_displayName web st st' document before type i later :
  loads web st st' →
  ultracube_organized_data web = Json document →
  flatten make_item document itemTypes = before ++ make_item type i :: later →
  (∀ j, j ∈ later → Item.id j ≠ Raw.name i) →
  ∃ item,
    result (getItem (Raw.name i)) st' = Returns (Val item)
    ∧ Item.raw item = i
    ∧ Item.id item = Raw.name i
    ∧ Item.type item = type
    ∧ Item.displayName item
      = match Raw.cleaned_name i with
        | Some cleaned => if decide (cleaned = "") then Raw.name i else cleaned
        | None => Raw.name i
        end.
Proof.
  intros Hload Hdoc Hsplit Hlater.
  destruct (loads_getItem web st st' document (Raw.name i) Hload Hdoc) as [_ Hget].
  exists (make_item type i). split; [|split; [|split; [|split]]]; try reflexivity.
  - rewrite Hget, Hsplit.
    change (Raw.name i) with (Item.id (make_item type i)).
    rewrite (latest_split Item.id before later (make_item type i) Hlater).
    reflexivity.
  - simpl. unfold or_else, truthy. destruct (Raw.cleaned_name i) as [c|]; [|reflexivity].
    destruct (decide (c = "")) as [->|Hne]; [reflexivity|].
    apply String.eqb_neq in Hne. now rewrite Hne.
Qed.

Lemma getItem_displayName_witness :
  loads sample_site constructor (after (loadData sample_site) constructor)
  ∧ ∃ item,
      result (getItem "water") (after (loadData sample_site) constructor)
      = Returns (Val item)
      ∧ Item.displayName item = "water".
Proof.
  assert (H : loads sample_site constructor (after (loadData sample_site) constructor))
    by (vm_compute; reflexivity).
  split; [exact H|].
  destruct (getItem_displayName sample_site constructor _ sample
              [make_item "item" (record "iron-plate" (Some "Iron Plate"));
               make_item "item" (record "iron-ore" None)]
              "fluid" (record "water" (Some "")) [] H eq_refl)
    as (item & Hget & _ & _ & _ & Hname).
  - vm_compute. reflexivity.
  - intros j Hj. apply elem_of_nil in Hj. destruct Hj.
  - exists item. split; [exact Hget | exact Hname].
Defined.

(** ** The unlocking technology *)

Lemma someM_spec {A} (array : list A) (p : A → M bool) (P : A → Prop) st :
  (∀ x, ∃ b, p x st = (Returns b, st) ∧ (b = true ↔ P x)) →
  ∃ b, someM array p st = (Returns b, st) ∧ (b = true ↔ ∃ x, x ∈ array ∧ P x).
Proof.
  intros Hp. induction array as [|x rest IH]; simpl.
  - exists false. split; [reflexivity|]. split; [discriminate|].
    intros (x & Hx & _). apply elem_of_nil in Hx. destruct Hx.
  - destruct (Hp x) as (b & Hb & HP). rewrite (bind_returns _ _ _ _ _ Hb).
    destruct b.
    + exists true. split; [reflexivity|]. split; [|reflexivity].
      intros _. exists x. split; [left | now apply HP].
    + destruct IH as (b & Hrest & Hiff). exists b. split; [exact Hrest|].
      rewrite Hiff. split.
      * intros (y & Hy & HPy). exists y. split; [now right | exact HPy].
      * intros (y & Hy & HPy). apply elem_of_cons in Hy as [->|Hy].
        -- apply HP in HPy. discriminate.
        -- now exists y.
Qed.

Lemma findM_spec {A} (array : list A) (p : A → M bool) (P : A → Prop) st :
  (∀ x, ∃ b, p x st = (Returns b, st) ∧ (b = true ↔ P x)) →
  (∃ before x later,
     array = before ++ x :: later
     ∧ (∀ y, y ∈ before → ¬ P y)
     ∧ P x
     ∧ findM array p st = (Returns (Val x), st))
  ∨ ((∀ y, y ∈ array → ¬ P y) ∧ findM array p st = (Returns Undefined, st)).
Proof.
  intros Hp. induction array as [|x rest IH]; simpl.
  - right. split; [|reflexivity]. intros y Hy. apply elem_of_nil in Hy. destruct Hy.
  - destruct (Hp x) as (b & Hb & HP). rewrite (bind_returns _ _ _ _ _ Hb).
    destruct b.
    + left. exists [], x, rest. split; [reflexivity|]. split.
      * intros y Hy. apply elem_of_nil in Hy. destruct Hy.
      * split; [now apply HP | reflexivity].
    + assert (¬ P x) as Hx by (intros HPx; apply HP in HPx; discriminate).
      destruct IH as [(before & y & later & -> & Hbefore & HPy & Hfind)
                     |[Hnone Hfind]].
      * left. exists (x :: before), y, later. split; [reflexivity|]. split.
        -- intros z Hz. apply elem_of_cons in Hz as [->|Hz]; [exact Hx | now apply Hbefore].
        -- split; [exact HPy | exact Hfind].
      * right. split; [|exact Hfind].
        intros z Hz. apply elem_of_cons in Hz as [->|Hz]; [exact Hx | now apply Hnone].
Qed.

Lemma unlocks_spec itemName effect st :
  ∃ b, unlocks itemName effect st = (Returns b, st)
       ∧ (b = true ↔
          ∃ recipeName recipe result,
            Effect.type effect = "unlock-recipe"
            ∧ Effect.recipe effect = Some recipeName
            ∧ recipeLookup st !! recipeName = Some recipe
            ∧ result ∈ Recipe.results recipe
            ∧ Entry.name result = itemName).
Proof.
  unfold unlocks. destruct (String.eqb (Effect.type effect) "unlock-recipe") eqn:Etype.
  - apply String.eqb_eq in Etype.
    destruct (Effect.recipe effect) as [recipeName|] eqn:Erecipe.
    + unfold bind, getRecipe, this, Map_get. simpl.
      destruct (recipeLookup st !! recipeName) as [recipe|] eqn:Elookup; simpl.
      * exists (names itemName (Recipe.results recipe)). split; [reflexivity|].
        rewrite names_spec. split.
        -- intros (result & Hin & Hname). exists recipeName, recipe, result. auto.
        -- intros (n & r & result & _ & [= <-] & Hr & Hin & Hname).
           rewrite Elookup in Hr. injection Hr as <-. now exists result.
      * exists false. split; [reflexivity|]. split; [discriminate|].
        intros (n & r & result & _ & [= <-] & Hr & _). congruence.
    + exists false. split; [reflexivity|]. split; [discriminate|].
      intros (n & r & result & _ & [=] & _).
  - apply String.eqb_neq in Etype.
    exists false. split; [reflexivity|]. split; [discriminate|].
    intros (n & r & result & Ht & _). contradiction.
Qed.

(** [extractItems] gives the listed elements, in either form. *)
Lemma listed_spec {A} (x : A) (data : relation A) :
  listed x data ↔ x ∈ extractItems data.
Proof.
  unfold listed. destruct data as [|elems|[payload|]]; simpl; split.
  - intros [(e & [=] & _)|(e & [=] & _)].
  - intros H. apply elem_of_nil in H. destruct H.
  - intros [(e & [= <-] & H)|(e & [=] & _)]. exact H.
  - intros H. left. now exists elems.
  - intros [(e & [=] & _)|(e & [= <-] & H)]. exact H.
  - intros H. right. now exists payload.
  - intros [(e & [=] & _)|(e & [=] & _)].
  - intros H. apply elem_of_nil in H. destruct H.
Qed.

(** The callback of [find] in [getTechnologyThatUnlocks]. *)
Lemma unlocking_spec itemName tech st :
  ∃ b,
    match Raw.effects tech with
    | Missing => ret false
    | _ => someM (extractItems (Raw.effects tech)) (unlocks itemName)
    end st = (Returns b, st)
    ∧ (b = true ↔ unlocks_item st itemName tech).
Proof.
  destruct (someM_spec (extractItems (Raw.effects tech)) (unlocks itemName) _ st
              (λ effect, unlocks_spec itemName effect st)) as (b & Hsome & Hiff).
  assert (Hitem : b = true ↔ unlocks_item st itemName tech).
  { rewrite Hiff. unfold unlocks_item. split.
    - intros (effect & Hin%listed_spec & n & r & result & H).
      exists effect, n, r, result. tauto.
    - intros (effect & n & r & result & Hin%listed_spec & H).
      exists effect. split; [exact Hin|].
      exists n, r, result. tauto. }
  exists b. split; [|exact Hitem].
  destruct (Raw.effects tech); exact Hsome.
Qed.

(** C5, as stated, fails: with the [technology] bucket in the wrapper form
    the load succeeds, the wrapped technology has an [unlock-recipe] effect
    for an indexed recipe that makes [iron-plate], and
    [getTechnologyThatUnlocks] throws instead of returning it. *)
Lemma getTechnologyThatUnlocks_throws_on_wrapped_bucket :
  let st' := after (loadData wrapped_technology_site) constructor in
  loads wrapped_technology_site constructor st'
  ∧ wrapped_technology !! "technology" = Some (Wrapper (Some [smelting_tech]))
  ∧ unlocks_item st' "iron-plate" smelting_tech
  ∧ result (getTechnologyThatUnlocks "iron-plate") st' = Throws TypeError.
Proof.
  cbv zeta. split; [vm_compute; reflexivity|]. split; [vm_compute; reflexivity|].
  split; [|vm_compute; reflexivity].
  exists {| Effect.type := "unlock-recipe"; Effect.recipe := Some "iron-plate" |},
         "iron-plate",
         (recipe_of [] iron_plate_recipe),
         (entry "iron-plate" 1).
  split.
  { left. eexists. split; [reflexivity|]. left. }
  split; [reflexivity|]. split; [reflexivity|].
  split; [vm_compute; reflexivity|]. split; [left|reflexivity].
Qed.

(** C5, amended: after a successful load, [getTechnologyThatUnlocks x]
    returns [null] when the dataset has no [technology] bucket or a [null]
    one; when the bucket is an array it returns the first technology of the
    array that has an [unlock-recipe] effect whose recipe, looked up in the
    recipe index, has a result named [x], and [undefined] when no technology
    of the array has one; when the bucket is any other object it throws a
    [TypeError]. *)
Theorem technology_that_unlocks web st st' document (x : string) :
  loads web st st' →
  ultracube_organized_data web = Json document →
  match document !! "technology" with
  | None | Some Missing => result (getTechnologyThatUnlocks x) st' = Returns Null
  | Some (PlainArray technology) =>
      (∃ before tech later,
         technology = before ++ tech :: later
         ∧ (∀ earlier, earlier ∈ before → ¬ unlocks_item st' x earlier)
         ∧ unlocks_item st' x tech
         ∧ result (getTechnologyThatUnlocks x) st' = Returns (Val tech))
      ∨ ((∀ tech, tech ∈ technology → ¬ unlocks_item st' x tech)
         ∧ result (getTechnologyThatUnlocks x) st' = Returns Undefined)
  | Some (Wrapper _) => result (getTechnologyThatUnlocks x) st' = Throws TypeError
  end.
Proof.
  intros Hload Hdoc.
  destruct (loads_inv _ _ _ Hload) as (document' & mapping & Hdoc' & _ & Hst).
  rewrite Hdoc in Hdoc'. injection Hdoc' as <-.
  assert (Hdata : data st' = Some document) by (rewrite Hst; reflexivity).
  unfold result, getTechnologyThatUnlocks.
  rewrite (bind_returns _ _ _ _ _ (data_get_loaded document "technology" st' Hdata)).
  destruct (document !! "technology") as [[|technology|payload]|]; try reflexivity.
  destruct (findM_spec technology
              (λ tech, match Raw.effects tech with
                       | Missing => ret false
                       | _ => someM (extractItems (Raw.effects tech)) (unlocks x)
                       end)
              (unlocks_item st' x) st' (λ tech, unlocking_spec x tech st'))
    as [(before & tech & later & Hsplit & Hbefore & Htech & Hfind) | [Hnone Hfind]].
  - left. exists before, tech, later. rewrite Hfind. auto.
  - right. rewrite Hfind. auto.
Qed.

Lemma technology_that_unlocks_witness :
  loads sample_site constructor (after (loadData sample_site) constructor)
  ∧ ultracube_organized_data sample_site = Json sample
  ∧ ((∃ before tech later,
        [smelting_tech] = before ++ tech :: later
        ∧ (∀ earlier, earlier ∈ before →
             ¬ unlocks_item (after (loadData sample_site) constructor) "iron-plate" earlier)
        ∧ unlocks_item (after (loadData sample_site) constructor) "iron-plate" tech
        ∧ result (getTechnologyThatUnlocks "iron-plate")
                 (after (loadData sample_site) constructor) = Returns (Val tech))
     ∨ ((∀ tech, tech ∈ [smelting_tech] →
           ¬ unlocks_item (after (loadData sample_site) constructor) "iron-plate" tech)
        ∧ result (getTechnologyThatUnlocks "iron-plate")
                 (after (loadData sample_site) constructor) = Returns Undefined)).
Proof.
  assert (H : loads sample_site constructor (after (loadData sample_site) constructor))
    by (vm_compute; reflexivity).
  split; [exact H|]. split; [reflexivity|].
  exact (technology_that_unlocks sample_site constructor _ sample "iron-plate" H eq_refl).
Defined.

(** Every record of an item-like bucket has its place in the flattened
    collection. *)
Lemma declared_flatten document entry :
  declared document itemTypes entry
  ↔ ∃ type before later,
      flatten make_item document itemTypes = before ++ make_item type entry :: later.
Proof.
  split.
  - intros (type & records & Htype & Hbucket & Hentry).
    assert (Hin : make_item type entry ∈ flatten make_item document itemTypes).
    { apply elem_of_flatten. exists type, records, entry. auto. }
    apply list_elem_of_split in Hin as (before & later & Hsplit).
    now exists type, before, later.
  - intros (type & before & later & Hsplit).
    assert (Hin : make_item type entry ∈ flatten make_item document itemTypes).
    { rewrite Hsplit. apply elem_of_app. right. left. }
    apply elem_of_flatten in Hin as (type' & records & r & Htype & Hbucket & Hr & Heq).
    injection Heq as -> _ _ ->. now exists type', records.
Qed.

(** Icons: a listed id, an unlisted one, and one that names an inherited
    member. *)
Example getItemIcon_sample :
  result (getItemIcon "iron-plate") (after (loadData sample_site) constructor)
  = Returns (Val (Text "iron-plate.png"))
  ∧ result (getItemIcon "iron-ore") (after (loadData sample_site) constructor)
    = Returns Null
  ∧ result (getItemIcon "toString") (after (loadData sample_site) constructor)
    = Returns (Val (Inherited "toString")).
Proof. vm_compute. repeat split. Qed.

Example getItemTypes_sample :
  result getItemTypes (after (loadData sample_site) constructor)
  = Returns ["fluid"; "item"].
Proof. vm_compute. reflexivity. Qed.

(** Queries on an index that was never loaded. *)
Example unloaded_queries :
  result (getTechnologyThatUnlocks "iron-plate") constructor = Throws TypeError
  ∧ result getItemTypes constructor = Throws TypeError
  ∧ result (getItem "iron-plate") constructor = Returns Undefined.
Proof. vm_compute. repeat split. Qed.

(** * Further properties of the data processor *)

(** ** Loading *)


(** A dataset whose [fluid] bucket is in the wrapper form: both documents
    arrive and parse, [loadData] returns [false], and the index keeps what
    the item loop did before it reached that bucket. *)
Example loadData_wrapped_bucket :
  let st' := after (loadData wrapped_fluid_site) constructor in
  result (loadData wrapped_fluid_site) constructor = Returns false
  ∧ data st' = Some wrapped_fluid
  ∧ Item.name <$> items st' = ["iron-plate"; "iron-ore"]
  ∧ recipes st' = []
  ∧ craftingEntities st' = [].
Proof.
  cbv zeta. split; [vm_compute; reflexivity|].
  split; [reflexivity|]. split; vm_compute; auto.
Qed.

(** X2: what a successful load leaves in [data], [iconMapping], [items] and
    [craftingEntities] is a function of the two documents alone: two loads of
    the same site agree on them whatever the index held before, and, when the
    [recipe] bucket of the dataset is an array, on the recipes up to their
    crafting entity. *)
Theorem load_rebuilds web st1 st1' st2 st2' :
  loads web st1 st1' →
  loads web st2 st2' →
  data st1' = data st2'
  ∧ iconMapping st1' = iconMapping st2'
  ∧ items st1' = items st2'
  ∧ craftingEntities st1' = craftingEntities st2'
  ∧ (∀ document records,
       data st1' = Some document →
       document !! "recipe" = Some (PlainArray records) →
       Forall2 same_recipe (recipes st1') (recipes st2')).
Proof.
  intros H1 H2.
  destruct (loads_inv _ _ _ H1) as (d1 & m1 & Hd1 & Hm1 & ->).
  destruct (loads_inv _ _ _ H2) as (d2 & m2 & Hd2 & Hm2 & ->).
  rewrite Hd1 in Hd2. injection Hd2 as <-.
  rewrite Hm1 in Hm2. injection Hm2 as <-.
  repeat match goal with |- _ ∧ _ => split end; try reflexivity.
  intros document records [= <-] Hrecords%array_bucket_Some. simpl. rewrite Hrecords.
  clear. induction records as [|r rest IH]; simpl; constructor.
  - repeat split.
  - exact IH.
Qed.

Lemma load_rebuilds_witness :
  loads sample_site constructor (after (loadData sample_site) constructor)
  ∧ loads sample_site (after (loadData clashing_site) constructor)
          (after (loadData sample_site) (after (loadData clashing_site) constructor))
  ∧ items (after (loadData sample_site) constructor)
    = items (after (loadData sample_site) (after (loadData clashing_site) constructor)).
Proof.
  assert (H1 : loads sample_site constructor (after (loadData sample_site) constructor))
    by (vm_compute; reflexivity).
  assert (H2 : loads sample_site (after (loadData clashing_site) constructor)
                 (after (loadData sample_site) (after (loadData clashing_site) constructor)))
    by (vm_compute; reflexivity).
  split; [exact H1|]. split; [exact H2|].
  destruct (load_rebuilds sample_site _ _ _ _ H1 H2) as (_ & _ & Hitems & _).
  exact Hitems.
Defined.

Lemma latest_Some {V} (key : V → string) k (values : list V) v :
  latest key k values = Some v → v ∈ values ∧ key v = k.
Proof.
  unfold latest. intros H. apply last_Some in H as (l' & H).
  assert (Hin : In v (List.filter (λ v, String.eqb (key v) k) values)).
  { rewrite H. apply in_or_app. right. now left. }
  apply filter_In in Hin as [Hin Hkey].
  split; [now apply list_elem_of_In | now apply String.eqb_eq].
Qed.

Lemma latest_is_Some {V} (key : V → string) (values : list V) v :
  v ∈ values → is_Some (latest key (key v) values).
Proof.
  intros Hin. unfold latest.
  destruct (last (List.filter (λ w, String.eqb (key w) (key v)) values)) eqn:E;
    [eauto|].
  apply last_None in E.
  assert (Hv : In v (List.filter (λ w, String.eqb (key w) (key v)) values)).
  { apply filter_In. split; [now apply list_elem_of_In | apply String.eqb_refl]. }
  rewrite E in Hv. destruct Hv.
Qed.

Lemma latest_None {V} (key : V → string) k (values : list V) :
  (∀ v, v ∈ values → key v ≠ k) → latest key k values = None.
Proof.
  intros H. destruct (latest key k values) as [v|] eqn:E; [|reflexivity].
  apply latest_Some in E as [Hin Hk]. destruct (H v Hin Hk).
Qed.

(** The three lookups after a load. *)
Lemma loads_lookups web st st' :
  loads web st st' →
  itemLookup st' = set_all Item.name (items st') (itemLookup st)
  ∧ craftingLookup st'
    = set_all (λ c, Raw.name (Crafting.raw c)) (craftingEntities st') (craftingLookup st)
  ∧ (∀ document, data st' = Some document →
       match array_bucket document "recipe" with
       | Some records =>
           recipes st' = map (recipe_of (craftingEntities st)) records
           ∧ recipeLookup st' = set_all Recipe.name (recipes st') (recipeLookup st)
       | None => recipes st' = recipes st ∧ recipeLookup st' = recipeLookup st
       end).
Proof.
  intros Hload.
  destruct (loads_inv _ _ _ Hload) as (document & mapping & _ & _ & ->).
  split; [reflexivity|]. split; [reflexivity|].
  intros d [= <-]. simpl. destruct (array_bucket document "recipe"); split; reflexivity.
Qed.

(** X3: a load never empties a lookup: an id under which [getItem],
    [getRecipe] or [getCraftingEntity] found a record before the load still
    finds one after it, and [getItem] returns the very record it returned
    before for an id that no item of the new dataset has. *)
Theorem load_keeps_lookup_entries web st st' (x : string) :
  loads web st st' →
  (∀ old, result (getItem x) st = Returns (Val old) →
     ∃ new, result (getItem x) st' = Returns (Val new))
  ∧ (∀ old, result (getRecipe x) st = Returns (Val old) →
       ∃ new, result (getRecipe x) st' = Returns (Val new))
  ∧ (∀ old, result (getCraftingEntity x) st = Returns (Val old) →
       ∃ new, result (getCraftingEntity x) st' = Returns (Val new))
  ∧ ((∀ item, item ∈ items st' → Item.id item ≠ x) →
       result (getItem x) st' = result (getItem x) st).
Proof.
  intros Hload.
  destruct (loads_lookups _ _ _ Hload) as (Hitem & Hcraft & Hrecipe).
  destruct (loads_items _ _ _ Hload) as (document & Hdoc & _ & _ & Hid).
  assert (Hdata : data st' = Some document).
  { destruct (loads_inv _ _ _ Hload) as (d & m & Hd & _ & ->).
    rewrite Hdoc in Hd. now injection Hd as <-. }
  specialize (Hrecipe document Hdata).
  unfold result, getItem, getRecipe, getCraftingEntity, bind, this, Map_get. simpl.
  repeat match goal with |- _ ∧ _ => split end.
  - intros old Hold. rewrite Hitem, set_all_lookup.
    destruct (latest Item.name x (items st')); [eauto|].
    destruct (itemLookup st !! x); [eauto | discriminate].
  - intros old Hold. destruct (array_bucket document "recipe").
    + destruct Hrecipe as [_ ->]. rewrite set_all_lookup.
      destruct (latest Recipe.name x (recipes st')); [eauto|].
      destruct (recipeLookup st !! x); [eauto | discriminate].
    + destruct Hrecipe as [_ ->].
      destruct (recipeLookup st !! x); [eauto | discriminate].
  - intros old Hold. rewrite Hcraft, set_all_lookup.
    destruct (latest _ x (craftingEntities st')); [eauto|].
    destruct (craftingLookup st !! x); [eauto | discriminate].
  - intros Hnew. rewrite Hitem, set_all_lookup, latest_None; [reflexivity|].
    intros item Hin. rewrite (Hid item Hin). now apply Hnew.
Qed.

Lemma load_keeps_lookup_entries_witness :
  loads clashing_site (after (loadData sample_site) constructor)
        (after (loadData clashing_site) (after (loadData sample_site) constructor))
  ∧ result (getItem "water")
           (after (loadData clashing_site) (after (loadData sample_site) constructor))
    = result (getItem "water") (after (loadData sample_site) constructor).
Proof.
  assert (H : loads clashing_site (after (loadData sample_site) constructor)
                (after (loadData clashing_site) (after (loadData sample_site) constructor)))
    by (vm_compute; reflexivity).
  split; [exact H|].
  destruct (load_keeps_lookup_entries clashing_site _ _ "water" H) as (_ & _ & _ & Hstale).
  apply Hstale. intros item Hin.
  vm_compute in Hin. apply list_elem_of_In in Hin.
  destruct Hin as [<-|[<-|[]]]; discriminate.
Defined.

(** Every item a load lists is stored under its id. *)
Lemma loads_items_indexed web st st' item :
  loads web st st' →
  item ∈ items st' →
  ∃ found, itemLookup st' !! Item.id item = Some found
           ∧ Item.id found = Item.id item ∧ found ∈ items st'.
Proof.
  intros Hload Hin.
  destruct (loads_items _ _ _ Hload) as (document & _ & _ & Hlookup & Hid).
  rewrite Hlookup, set_all_lookup, <- (Hid item Hin).
  destruct (latest_is_Some Item.name (items st') item Hin) as [found Hfound].
  rewrite Hfound. exists found. split; [reflexivity|].
  apply latest_Some in Hfound as [Hfin Hname].
  split; [|exact Hfin]. now rewrite <- (Hid found Hfin), Hname, (Hid item Hin).
Qed.

(** X4: after a successful load every item of [getAllItems] can be looked up:
    [getItem] applied to its id returns an item of the collection with that
    id. *)
Theorem listed_items_are_indexed web st st' :
  loads web st st' →
  ∃ all,
    result getAllItems st' = Returns all
    ∧ ∀ item, item ∈ all →
        ∃ found,
          result (getItem (Item.id item)) st' = Returns (Val found)
          ∧ Item.id found = Item.id item
          ∧ found ∈ all.
Proof.
  intros Hload. exists (items st'). split; [reflexivity|]. intros item Hin.
  destruct (loads_items_indexed _ _ _ item Hload Hin) as (found & Hlookup & Hid & Hfin).
  exists found. unfold result, getItem, bind, this, Map_get. cbn [fst].
  rewrite Hlookup. repeat split; assumption.
Qed.

Lemma listed_items_are_indexed_witness :
  loads clashing_site constructor (after (loadData clashing_site) constructor)
  ∧ ∃ found,
      result (getItem "cube") (after (loadData clashing_site) constructor)
      = Returns (Val found)
      ∧ Item.id found = "cube".
Proof.
  assert (H : loads clashing_site constructor (after (loadData clashing_site) constructor))
    by (vm_compute; reflexivity).
  split; [exact H|].
  destruct (listed_items_are_indexed clashing_site constructor _ H) as (all & Hall & Hfind).
  vm_compute in Hall. injection Hall as <-.
  destruct (Hfind (make_item "item" (record "cube" (Some "Cube"))))
    as (found & Hget & Hid & _); [left|].
  exists found. split; [exact Hget | exact Hid].
Defined.

(** X5: after a successful load every crafting entity of the index is found
    by [getCraftingEntity] under its id, and, when the [recipe] bucket of the
    dataset is an array, every recipe of [getAllRecipes] is found by
    [getRecipe] under its id; what is found has the id asked for. *)
Theorem listed_recipes_and_entities_are_indexed web st st' document :
  loads web st st' →
  ultracube_organized_data web = Json document →
  (∀ entity, entity ∈ craftingEntities st' →
     ∃ found,
       result (getCraftingEntity (Crafting.id entity)) st' = Returns (Val found)
       ∧ Crafting.id found = Crafting.id entity
       ∧ found ∈ craftingEntities st')
  ∧ ((∃ records, document !! "recipe" = Some (PlainArray records)) →
     ∃ all,
       result getAllRecipes st' = Returns all
       ∧ ∀ recipe, recipe ∈ all →
           ∃ found,
             result (getRecipe (Recipe.id recipe)) st' = Returns (Val found)
             ∧ Recipe.id found = Recipe.id recipe
             ∧ found ∈ all).
Proof.
  intros Hload Hdoc.
  destruct (loads_lookups _ _ _ Hload) as (_ & Hcraft & Hrecipe).
  destruct (loads_inv _ _ _ Hload) as (d & m & Hd & _ & Hst).
  rewrite Hdoc in Hd. injection Hd as <-.
  assert (Hdata : data st' = Some document) by (rewrite Hst; reflexivity).
  specialize (Hrecipe document Hdata).
  assert (Hcid : ∀ e, e ∈ craftingEntities st' →
                      Raw.name (Crafting.raw e) = Crafting.id e).
  { intros e He. rewrite Hst in He.
    apply (elem_of_flatten make_crafting document entityTypes) in He
      as (type & records & r & _ & _ & _ & ->).
    reflexivity. }
  split.
  - intros entity Hin.
    unfold result, getCraftingEntity, bind, this, Map_get. simpl.
    rewrite Hcraft, set_all_lookup, <- (Hcid entity Hin).
    destruct (latest_is_Some (λ c, Raw.name (Crafting.raw c)) (craftingEntities st')
                entity Hin) as [found Hfound].
    rewrite Hfound. exists found. split; [reflexivity|].
    apply latest_Some in Hfound as [Hfin Hname].
    split; [|exact Hfin]. now rewrite <- (Hcid found Hfin), Hname.
  - intros [records Hrecords%array_bucket_Some]. rewrite Hrecords in Hrecipe.
    destruct Hrecipe as [Hrecipes Hlookup].
    assert (Hrid : ∀ r, r ∈ recipes st' → Recipe.name r = Recipe.id r).
    { intros r Hr. rewrite Hrecipes in Hr.
      apply list_elem_of_fmap in Hr as (raw & -> & _). reflexivity. }
    exists (recipes st'). split; [reflexivity|]. intros recipe Hin.
    unfold result, getRecipe, bind, this, Map_get. simpl.
    rewrite Hlookup, set_all_lookup, <- (Hrid recipe Hin).
    destruct (latest_is_Some Recipe.name (recipes st') recipe Hin) as [found Hfound].
    rewrite Hfound. exists found. split; [reflexivity|].
    apply latest_Some in Hfound as [Hfin Hname].
    split; [|exact Hfin]. now rewrite <- (Hrid found Hfin), Hname.
Qed.

Lemma listed_recipes_and_entities_are_indexed_witness :
  loads sample_site constructor (after (loadData sample_site) constructor)
  ∧ ultracube_organized_data sample_site = Json sample
  ∧ ∃ found,
      result (getCraftingEntity "stone-furnace") (after (loadData sample_site) constructor)
      = Returns (Val found)
      ∧ Crafting.id found = "stone-furnace".
Proof.
  assert (H : loads sample_site constructor (after (loadData sample_site) constructor))
    by (vm_compute; reflexivity).
  split; [exact H|]. split; [reflexivity|].
  destruct (listed_recipes_and_entities_are_indexed sample_site constructor _ sample
              H eq_refl) as [Hentities _].
  destruct (Hentities (make_crafting "furnace" stone_furnace)) as (found & Hget & Hid & _).
  - vm_compute. left.
  - exists found. split; [exact Hget | exact Hid].
Defined.

(** ** Resolution against the entities at hand *)

(** X6: the crafting entity a load gives a recipe is what
    [findCraftingEntity] returns for the recipe's category on the index as it
    was before that load: the entities the dataset itself declares take no
    part in it. *)
Theorem load_resolves_against_previous_entities web st st' document records :
  loads web st st' →
  ultracube_organized_data web = Json document →
  document !! "recipe" = Some (PlainArray records) →
  length (recipes st') = length records
  ∧ ∀ recipe, recipe ∈ recipes st' →
      result (findCraftingEntity (Recipe.category recipe)) st
      = Returns (Recipe.craftingEntity recipe).
Proof.
  intros Hload Hdoc Hrecords%array_bucket_Some.
  destruct (loads_lookups _ _ _ Hload) as (_ & _ & Hrecipe).
  destruct (loads_inv _ _ _ Hload) as (d & m & Hd & _ & Hst).
  rewrite Hdoc in Hd. injection Hd as <-.
  assert (Hdata : data st' = Some document) by (rewrite Hst; reflexivity).
  specialize (Hrecipe document Hdata). rewrite Hrecords in Hrecipe.
  destruct Hrecipe as [-> _]. split; [apply length_map|].
  intros recipe Hin. apply list_elem_of_fmap in Hin as (raw & -> & _).
  unfold result. rewrite findCraftingEntity_resolve. reflexivity.
Qed.

Lemma load_resolves_against_previous_entities_witness :
  loads sample_site constructor (after (loadData sample_site) constructor)
  ∧ ultracube_organized_data sample_site = Json sample
  ∧ sample !! "recipe" = Some (PlainArray [iron_plate_recipe])
  ∧ length (recipes (after (loadData sample_site) constructor)) = 1.
Proof.
  assert (H : loads sample_site constructor (after (loadData sample_site) constructor))
    by (vm_compute; reflexivity).
  assert (Hr : sample !! "recipe" = Some (PlainArray [iron_plate_recipe]))
    by (vm_compute; reflexivity).
  split; [exact H|]. split; [reflexivity|]. split; [exact Hr|].
  destruct (load_resolves_against_previous_entities sample_site constructor _ sample
              [iron_plate_recipe] H eq_refl Hr) as [Hlen _].
  exact Hlen.
Defined.

Lemma handles_spec c e : handles c e = true ↔ c ∈ Crafting.categories e.
Proof.
  unfold handles. rewrite array_includes_spec. split.
  - intros (s & [= <-] & Hin). exact Hin.
  - intros Hin. now exists c.
Qed.

(** X7: on an index that holds crafting entities, [findCraftingEntity]
    returns the reference of the first entity, in the order of
    [this.craftingEntities], whose categories contain the category asked
    for. *)
Theorem findCraftingEntity_first_match st before entity later (c : string) :
  c ≠ "" →
  craftingEntities st = before ++ entity :: later →
  (∀ e, e ∈ before → c ∉ Crafting.categories e) →
  c ∈ Crafting.categories entity →
  result (findCraftingEntity (Some c)) st
  = Returns (Val {| EntityRef.name := Text (Crafting.displayName entity);
                    EntityRef.id := Crafting.id entity;
                    EntityRef.type := Crafting.type entity |}).
Proof.
  intros Hc Hsplit Hbefore Hentity.
  unfold result. rewrite findCraftingEntity_resolve. cbn [fst]. f_equal.
  apply (resolve_first_match _ before entity later c Hc Hsplit).
  - intros e He. destruct (handles c e) eqn:E; [|reflexivity].
    apply handles_spec in E. destruct (Hbefore e He E).
  - now apply handles_spec.
Qed.

Lemma findCraftingEntity_first_match_witness :
  "smelting" ≠ ""
  ∧ result (findCraftingEntity (Some "smelting")) (after (loadData sample_site) constructor)
    = Returns (Val {| EntityRef.name := Text "Stone Furnace";
                      EntityRef.id := "stone-furnace";
                      EntityRef.type := "furnace" |}).
Proof.
  assert (Hc : "smelting" ≠ "") by discriminate.
  split; [exact Hc|].
  apply (findCraftingEntity_first_match (after (loadData sample_site) constructor)
           [] (make_crafting "furnace" stone_furnace) [] "smelting" Hc).
  - vm_compute. reflexivity.
  - intros e He. apply elem_of_nil in He. destruct He.
  - vm_compute. left.
Defined.

Lemma find_handles_none c (entities : list Crafting.t) :
  (∀ e, e ∈ entities → c ∉ Crafting.categories e) →
  List.find (handles c) entities = None.
Proof.
  induction entities as [|e rest IH]; intros Hnone; simpl; [reflexivity|].
  destruct (handles c e) eqn:E.
  - apply handles_spec in E. destruct (Hnone e); [left | exact E].
  - apply IH. intros e' He'. apply Hnone. now right.
Qed.

(** X8: [findCraftingEntity] returns [null] for a missing or empty category;
    for any other category that no entity of [this.craftingEntities] handles
    it returns a reference of type ["category"] whose id is the category and
    whose name comes from the table of five names, or else, unless the
    category names an inherited member of the table object, is the category
    with dashes turned into spaces and words capitalised. *)
Theorem findCraftingEntity_fallback st (c : string) :
  c ≠ "" →
  (∀ e, e ∈ craftingEntities st → c ∉ Crafting.categories e) →
  result (findCraftingEntity None) st = Returns Null
  ∧ result (findCraftingEntity (Some "")) st = Returns Null
  ∧ ∃ label,
      result (findCraftingEntity (Some c)) st
      = Returns (Val {| EntityRef.name := label; EntityRef.id := c;
                        EntityRef.type := "category" |})
      ∧ (∀ human, categoryMappings !! c = Some human → label = Text human)
      ∧ (categoryMappings !! c = None → c ∉ objectPrototype →
         label = Text (capitalize_words (dashes_to_spaces c)))
      ∧ (categoryMappings !! c = None → c ∈ objectPrototype → label = Inherited c).
Proof.
  intros Hc Hnone. split; [reflexivity|]. split; [reflexivity|].
  destruct (resolve_fallback (craftingEntities st) c Hc) as (label & Hres & Htable & Htitle).
  { intros e He. destruct (handles c e) eqn:E; [|reflexivity].
    apply handles_spec in E. destruct (Hnone e He E). }
  exists label. unfold result. rewrite findCraftingEntity_resolve. cbn [fst].
  split; [now rewrite Hres|]. split; [exact Htable|]. split; [exact Htitle|].
  intros Hmiss Hproto.
  assert (Hlabel : resolve (craftingEntities st) (Some c)
                   = Val {| EntityRef.name := Inherited c; EntityRef.id := c;
                            EntityRef.type := "category" |}).
  { unfold resolve. apply truthy_spec in Hc. rewrite Hc.
    rewrite (find_handles_none c _ Hnone).
    unfold object_get. rewrite Hmiss.
    replace (existsb (String.eqb c) objectPrototype) with true; [reflexivity|].
    symmetry. apply existsb_exists. exists c.
    split; [now apply list_elem_of_In | apply String.eqb_refl]. }
  rewrite Hlabel in Hres. now injection Hres as <-.
Qed.

Lemma findCraftingEntity_fallback_witness :
  "widget-forging" ≠ ""
  ∧ ∃ label,
      result (findCraftingEntity (Some "widget-forging"))
             (after (loadData sample_site) constructor)
      = Returns (Val {| EntityRef.name := label; EntityRef.id := "widget-forging";
                        EntityRef.type := "category" |})
      ∧ label = Text "Widget Forging".
Proof.
  assert (Hc : "widget-forging" ≠ "") by discriminate.
  split; [exact Hc|].
  destruct (findCraftingEntity_fallback (after (loadData sample_site) constructor)
              "widget-forging" Hc) as (_ & _ & label & Hres & _ & Htitle & _).
  - intros e He. vm_compute in He. apply list_elem_of_In in He.
    destruct He as [<-|[]]. intros Hin. apply list_elem_of_In in Hin.
    destruct Hin as [Heq|[]]. discriminate Heq.
  - exists label. split; [exact Hres|].
    rewrite Htitle; [vm_compute; reflexivity | vm_compute; reflexivity |].
    intros Hin. apply list_elem_of_In in Hin. vm_compute in Hin.
    repeat (destruct Hin as [Heq|Hin]; [discriminate Heq|]). destruct Hin.
Defined.

(** ** The placeholder name *)

Lemma upper_not_dash c : is_word c = true → upper c ≠ "-"%char.
Proof.
  destruct c as [[] [] [] [] [] [] [] []]; vm_compute; intros H;
    try discriminate H; discriminate.
Qed.

Lemma upper_case c : is_word (upper c) = is_word c ∧ upper (upper c) = upper c.
Proof. destruct c as [[] [] [] [] [] [] [] []]; vm_compute; split; reflexivity. Qed.

Lemma capitalize_from_length after_word s :
  String.length (capitalize_from after_word s) = String.length s.
Proof.
  revert after_word. induction s as [|c s IH]; intros after_word; simpl;
    [reflexivity | now rewrite IH].
Qed.

Lemma dashes_to_spaces_length s :
  String.length (dashes_to_spaces s) = String.length s.
Proof. induction s as [|c s IH]; simpl; [reflexivity | now rewrite IH]. Qed.

Lemma capitalize_from_idempotent after_word s :
  capitalize_from after_word (capitalize_from after_word s)
  = capitalize_from after_word s.
Proof.
  revert after_word. induction s as [|c s IH]; intros after_word; simpl; [reflexivity|].
  destruct (upper_case c) as [Hword Hupper].
  destruct (is_word c && negb after_word) eqn:E.
  - rewrite Hword, E, Hupper, IH. reflexivity.
  - rewrite E, IH. reflexivity.
Qed.

Lemma includes_dash_cons c s :
  includes (String c s) "-" = Ascii.eqb "-" c || includes s "-".
Proof. cbn [includes startsWith]. now rewrite andb_true_r. Qed.

Lemma capitalize_from_no_dash after_word s :
  includes s "-" = false → includes (capitalize_from after_word s) "-" = false.
Proof.
  revert after_word. induction s as [|c s IH]; intros after_word; [easy|].
  cbn [capitalize_from]. rewrite !includes_dash_cons, !orb_false_iff.
  intros [Hc Hs]. split; [|now apply IH].
  destruct (is_word c && negb after_word) eqn:E; [|exact Hc].
  apply andb_true_iff in E as [Hword _].
  destruct (Ascii.eqb_spec "-" (upper c)) as [H|]; [|reflexivity].
  symmetry in H. destruct (upper_not_dash c Hword H).
Qed.

Lemma dashes_to_spaces_no_dash s : includes (dashes_to_spaces s) "-" = false.
Proof.
  induction s as [|c s IH]; [reflexivity|].
  cbn [dashes_to_spaces]. rewrite includes_dash_cons, IH, orb_false_r.
  destruct (Ascii.eqb_spec c "-") as [->|Hne]; [reflexivity|].
  destruct (Ascii.eqb_spec "-" c) as [<-|]; [now destruct Hne | reflexivity].
Qed.

Lemma dashes_to_spaces_fixed s : includes s "-" = false → dashes_to_spaces s = s.
Proof.
  induction s as [|c s IH]; [reflexivity|].
  cbn [dashes_to_spaces]. rewrite includes_dash_cons, orb_false_iff.
  intros [Hc Hs]. rewrite (IH Hs), Ascii.eqb_sym, Hc. reflexivity.
Qed.

(** X9: the placeholder name made from an unlisted category, the category
    with [-] replaced by spaces and each word capitalised, has as many
    characters as the category, contains no dash, and is left as it is when
    the same two replacements are applied to it again. *)
Theorem placeholder_name (category : string) :
  let name := capitalize_words (dashes_to_spaces category) in
  String.length name = String.length category
  ∧ includes name "-" = false
  ∧ capitalize_words (dashes_to_spaces name) = name.
Proof.
  simpl. unfold capitalize_words. split; [|split].
  - now rewrite capitalize_from_length, dashes_to_spaces_length.
  - apply capitalize_from_no_dash, dashes_to_spaces_no_dash.
  - rewrite dashes_to_spaces_fixed
      by apply capitalize_from_no_dash, dashes_to_spaces_no_dash.
    apply capitalize_from_idempotent.
Qed.

(** ** Item types *)

Lemma existsb_eqb_spec key (l : list string) :
  existsb (String.eqb key) l = true ↔ key ∈ l.
Proof.
  rewrite existsb_exists. split.
  - intros (y & Hin & Heq). apply String.eqb_eq in Heq. subst y.
    now apply list_elem_of_In.
  - intros Hin. exists key. split; [now apply list_elem_of_In | apply String.eqb_refl].
Qed.

(** The loop of [getItemTypes] over the keys of the dataset, for any list of
    admitted keys. *)
Lemma add_types_spec (admitted keys types : list string) :
  (∀ t, t ∈ fold_left
              (λ types key,
                 if existsb (String.eqb key) admitted
                 then (if existsb (String.eqb key) types then types else types ++ [key])
                 else types)
              keys types
        ↔ t ∈ types ∨ (t ∈ keys ∧ t ∈ admitted))
  ∧ (NoDup types →
     NoDup (fold_left
              (λ types key,
                 if existsb (String.eqb key) admitted
                 then (if existsb (String.eqb key) types then types else types ++ [key])
                 else types)
              keys types)).
Proof.
  revert types. induction keys as [|key keys IH]; intros types; cbn [fold_left].
  - split; [|easy]. intros t. split; [now left|].
    intros [H|[H _]]; [exact H|]. apply elem_of_nil in H. destruct H.
  - destruct (existsb (String.eqb key) admitted) eqn:Eb.
    + apply existsb_eqb_spec in Eb.
      destruct (existsb (String.eqb key) types) eqn:Et.
      * apply existsb_eqb_spec in Et. destruct (IH types) as [Hmem Hdup].
        split; [|exact Hdup]. intros t. rewrite Hmem, elem_of_cons. split.
        -- intros [H|[H Hb]]; [now left | right; split; [now right | exact Hb]].
        -- intros [H|[[->|H] Hb]]; [now left | now left | right; now split].
      * destruct (IH (types ++ [key])) as [Hmem Hdup].
        split.
        -- intros t. rewrite Hmem, elem_of_app, list_elem_of_singleton, elem_of_cons.
           split.
           ++ intros [[H| ->]|[H Hb]]; [now left | right; split; [now left | exact Eb]
                                        | right; split; [now right | exact Hb]].
           ++ intros [H|[[->|H] Hb]]; [left; now left | left; now right | right; now split].
        -- intros Hnd. apply Hdup. apply NoDup_app. split; [exact Hnd|].
           split; [|apply NoDup_singleton].
           intros x Hx Hk. apply list_elem_of_singleton in Hk. subst x.
           apply existsb_eqb_spec in Hx. congruence.
    + destruct (IH types) as [Hmem Hdup]. split; [|exact Hdup].
      intros t. rewrite Hmem, elem_of_cons. split.
      * intros [H|[H Hb]]; [now left | right; split; [now right | exact Hb]].
      * intros [H|[[->|H] Hb]]; [now left | | right; now split].
        apply existsb_eqb_spec in Hb. congruence.
Qed.

Lemma sort_insert_perm x (sorted : list string) : sort_insert x sorted ≡ₚ x :: sorted.
Proof.
  induction sorted as [|y rest IH]; simpl; [reflexivity|].
  destruct (String.leb x y); [reflexivity|].
  rewrite IH. apply Permutation_swap.
Qed.

Lemma sort_perm (array : list string) : sort array ≡ₚ array.
Proof.
  induction array as [|x rest IH]; simpl; [reflexivity|].
  change (fold_right sort_insert [] rest) with (sort rest).
  now rewrite sort_insert_perm, IH.
Qed.

Lemma sort_insert_sorted x (sorted : list string) :
  Sorted (λ a b, String.leb a b = true) sorted →
  Sorted (λ a b, String.leb a b = true) (sort_insert x sorted).
Proof.
  induction sorted as [|y rest IH]; intros Hs; simpl.
  - repeat constructor.
  - destruct (String.leb x y) eqn:E.
    + constructor; [exact Hs | now constructor].
    + apply Sorted_inv in Hs as [Hrest Hhd].
      constructor; [now apply IH|].
      assert (Hyx : String.leb y x = true).
      { destruct (String.leb_total x y) as [H|H]; [congruence | exact H]. }
      destruct rest as [|z rest]; simpl.
      * now constructor.
      * destruct (String.leb x z); constructor; [exact Hyx|].
        now apply HdRel_inv in Hhd.
Qed.

Lemma sort_sorted (array : list string) :
  Sorted (λ a b, String.leb a b = true) (sort array).
Proof.
  induction array as [|x rest IH]; simpl; [constructor|].
  now apply sort_insert_sorted.
Qed.

(** X10: on a loaded index [getItemTypes] returns, without repetition and in
    ascending order, ["item"] together with exactly those of the eight other
    item-like type names that are keys of the dataset. *)
Theorem getItemTypes_spec st document :
  data st = Some document →
  ∃ types,
    result getItemTypes st = Returns types
    ∧ (∀ t, t ∈ types ↔ t = "item" ∨ (t ∈ browsable ∧ is_Some (document !! t)))
    ∧ NoDup types
    ∧ Sorted (λ a b, String.leb a b = true) types.
Proof.
  intros Hdata. unfold result, getItemTypes, bind, this. rewrite Hdata.
  cbn [fst ret]. eexists. split; [reflexivity|].
  destruct (add_types_spec browsable (map_to_list document).*1 ["item"]) as [Hmem Hdup].
  split; [|split].
  - intros t. rewrite sort_perm, Hmem, list_elem_of_singleton.
    assert (Hkey : t ∈ (map_to_list document).*1 ↔ is_Some (document !! t)).
    { rewrite list_elem_of_fmap. split.
      - intros ([k v] & -> & Hin). apply elem_of_map_to_list in Hin. simpl. eauto.
      - intros [v Hv]. exists (t, v). split; [reflexivity|].
        now apply elem_of_map_to_list. }
    rewrite Hkey. tauto.
  - rewrite sort_perm. apply Hdup, NoDup_singleton.
  - apply sort_sorted.
Qed.

Lemma getItemTypes_spec_witness :
  data (after (loadData sample_site) constructor) = Some sample
  ∧ result getItemTypes (after (loadData sample_site) constructor)
    = Returns ["fluid"; "item"].
Proof.
  assert (H : data (after (loadData sample_site) constructor) = Some sample)
    by (vm_compute; reflexivity).
  split; [exact H|].
  destruct (getItemTypes_spec _ sample H) as (types & Hres & _).
  rewrite Hres. vm_compute in Hres. injection Hres as <-. reflexivity.
Defined.

(** ** Icons *)

(** X11: [getItemIcon] always returns, and never [undefined] nor the empty
    string: it returns a filename exactly when the icon mapping holds a
    non-empty one under the id, the inherited member when the id names one
    and the mapping has no entry of its own for it, and [null] otherwise. *)
Theorem getItemIcon_spec st (x : string) :
  ∃ answer,
    result (getItemIcon x) st = Returns answer
    ∧ answer ≠ Undefined
    ∧ (∀ filename, answer = Val (Text filename)
                   ↔ iconMapping st !! x = Some filename ∧ filename ≠ "")
    ∧ (∀ key, answer = Val (Inherited key)
              ↔ key = x ∧ iconMapping st !! x = None ∧ x ∈ objectPrototype)
    ∧ (answer = Null
       ↔ iconMapping st !! x = Some "" ∨ (iconMapping st !! x = None ∧ x ∉ objectPrototype)).
Proof.
  unfold result, getItemIcon, bind, this, object_get. cbv beta iota.
  destruct (iconMapping st !! x) as [f|] eqn:E.
  - destruct (decide (f = "")) as [->|T].
    + eexists. split; [reflexivity|]. split; [discriminate|]. split; [|split].
      * intros filename. split; [discriminate | intros [[= <-] H]; now destruct H].
      * intros key. split; [discriminate | intros (_ & [=] & _)].
      * split; [now left | reflexivity].
    + rewrite (proj2 (truthy_spec f) T).
      eexists. split; [reflexivity|].
      split; [discriminate|]. split; [|split].
      * intros filename. split; [intros [= <-]; now split | intros [[= <-] _]; reflexivity].
      * intros key. split; [discriminate | intros (_ & [=] & _)].
      * split; [discriminate|]. intros [[= ->]|[[=] _]]. now destruct T.
  - destruct (existsb (String.eqb x) objectPrototype) eqn:P.
    + apply existsb_eqb_spec in P. eexists. split; [reflexivity|].
      split; [discriminate|]. split; [|split].
      * intros filename. split; [discriminate | intros [[=] _]].
      * intros key. split; [intros [= <-]; now repeat split | intros (-> & _); reflexivity].
      * split; [discriminate|]. intros [[=]|[_ H]]. now destruct H.
    + assert (x ∉ objectPrototype) as Hx.
      { intros H. apply existsb_eqb_spec in H. congruence. }
      eexists. split; [reflexivity|]. split; [discriminate|]. split; [|split].
      * intros filename. split; [discriminate | intros [[=] _]].
      * intros key. split; [discriminate | intros (_ & _ & H); now destruct Hx].
      * split; [now right | reflexivity].
Qed.

(** ** An index that was never loaded *)

(** X12: while [this.data] is still [null], the two queries that read it,
    [getItemTypes] and [getTechnologyThatUnlocks], throw a [TypeError], and so
    does [processData], after it has emptied [this.items] and before it
    touches anything else. *)
Theorem unloaded_index_throws st :
  data st = None →
  result getItemTypes st = Throws TypeError
  ∧ (∀ x, result (getTechnologyThatUnlocks x) st = Throws TypeError)
  ∧ result processData st = Throws TypeError
  ∧ after processData st = set_items [] st.
Proof.
  intros Hdata. destruct st. simpl in Hdata. subst.
  repeat match goal with |- _ ∧ _ => split end; try intros x; reflexivity.
Qed.

Lemma unloaded_index_throws_witness :
  data constructor = None
  ∧ result getItemTypes constructor = Throws TypeError
  ∧ after processData constructor = constructor.
Proof.
  split; [reflexivity|].
  destruct (unloaded_index_throws constructor eq_refl) as (Htypes & _ & _ & Hafter).
  split; [exact Htypes | exact Hafter].
Defined.

(** ** Technologies and recipes *)

(** X13: on an index loaded once from the constructor's state, whenever
    [getTechnologyThatUnlocks x] returns a technology, [getRecipesThatMake x]
    returns at least one recipe: the recipe the technology unlocks is one of
    the index's recipes. *)
Theorem unlocking_technology_has_maker web st' (x : string) tech :
  loads web constructor st' →
  result (getTechnologyThatUnlocks x) st' = Returns (Val tech) →
  ∃ makers recipe,
    result (getRecipesThatMake x) st' = Returns makers
    ∧ recipe ∈ makers
    ∧ unlocks_item st' x tech.
Proof.
  intros Hload Hres.
  destruct (loads_lookups _ _ _ Hload) as (_ & _ & Hrecipe).
  destruct (loads_inv _ _ _ Hload) as (document & m & _ & _ & Hst).
  assert (Hdata : data st' = Some document) by (rewrite Hst; reflexivity).
  specialize (Hrecipe document Hdata).
  unfold result, getTechnologyThatUnlocks in Hres.
  rewrite (bind_returns _ _ _ _ _ (data_get_loaded document "technology" st' Hdata)) in Hres.
  destruct (document !! "technology") as [[|technology|payload]|]; try discriminate.
  destruct (findM_spec technology
              (λ tech, match Raw.effects tech with
                       | Missing => ret false
                       | _ => someM (extractItems (Raw.effects tech)) (unlocks x)
                       end)
              (unlocks_item st' x) st' (λ tech, unlocking_spec x tech st'))
    as [(before & found & later & _ & _ & Hfound & Hfind) | [_ Hfind]];
    change (fst (findM technology
                   (λ tech, match Raw.effects tech with
                            | Missing => ret false
                            | _ => someM (extractItems (Raw.effects tech)) (unlocks x)
                            end) st') = Returns (Val tech)) in Hres;
    rewrite Hfind in Hres; [|discriminate].
  injection Hres as ->. pose proof Hfound as Hitem.
  destruct Hfound as (effect & n & r & e & _ & _ & _ & Hlookup & He & Hname).
  assert (Hr : r ∈ recipes st').
  { destruct (array_bucket document "recipe").
    - destruct Hrecipe as [_ Hl]. rewrite Hl, set_all_lookup in Hlookup.
      destruct (latest Recipe.name n (recipes st')) as [r'|] eqn:E.
      + injection Hlookup as <-. now apply latest_Some in E as [E _].
      + change (recipeLookup constructor) with (∅ : gmap string Recipe.t) in Hlookup.
        rewrite lookup_empty in Hlookup. discriminate.
    - destruct Hrecipe as [_ Hl]. rewrite Hl in Hlookup.
      change (recipeLookup constructor) with (∅ : gmap string Recipe.t) in Hlookup.
      rewrite lookup_empty in Hlookup. discriminate. }
  exists (List.filter (λ recipe, names x (Recipe.results recipe)) (recipes st')), r.
  split; [reflexivity|]. split.
  - apply elem_of_filter. split; [exact Hr|]. apply names_spec. now exists e.
  - exact Hitem.
Qed.

Lemma unlocking_technology_has_maker_witness :
  loads sample_site constructor (after (loadData sample_site) constructor)
  ∧ result (getTechnologyThatUnlocks "iron-plate") (after (loadData sample_site) constructor)
    = Returns (Val smelting_tech)
  ∧ ∃ makers recipe,
      result (getRecipesThatMake "iron-plate") (after (loadData sample_site) constructor)
      = Returns makers
      ∧ recipe ∈ makers.
Proof.
  assert (H : loads sample_site constructor (after (loadData sample_site) constructor))
    by (vm_compute; reflexivity).
  assert (Ht : result (getTechnologyThatUnlocks "iron-plate")
                 (after (loadData sample_site) constructor) = Returns (Val smelting_tech))
    by (vm_compute; reflexivity).
  split; [exact H|]. split; [exact Ht|].
  destruct (unlocking_technology_has_maker sample_site _ "iron-plate" smelting_tech H Ht)
    as (makers & recipe & Hm & Hin & _).
  now exists makers, recipe.
Defined.

(** ** Search *)

Lemma filter_keeps_sublist {A} (p : A → bool) (l1 l2 : list A) :
  sublist l1 l2 → sublist (List.filter p l1) (List.filter p l2).
Proof.
  induction 1 as [|x l1 l2 _ IH|x l1 l2 _ IH]; simpl.
  - constructor.
  - destruct (p x); [now constructor | exact IH].
  - destruct (p x); [now constructor | exact IH].
Qed.

Section SearchMore.

Variable toLowerCase : string → string.

(** X14: whatever the index, [searchItems] keeps the order of [this.items];
    a type filter only removes entries from what the same query finds without
    it; and two non-empty queries that are equal once lower-cased find the
    same items. *)
Theorem searchItems_narrows st (q t : string) :
  ∃ found untyped,
    result (searchItems toLowerCase q t) st = Returns found
    ∧ result (searchItems toLowerCase q EmptyString) st = Returns untyped
    ∧ sublist found untyped
    ∧ sublist untyped (items st)
    ∧ ∀ q2 : string,
        q ≠ EmptyString → q2 ≠ EmptyString → toLowerCase q2 = toLowerCase q →
        result (searchItems toLowerCase q2 t) st = Returns found.
Proof.
  unfold result, searchItems, bind, this. cbn [fst ret].
  eexists _, _. split; [reflexivity|]. split; [reflexivity|].
  change (truthy (Some EmptyString)) with false. cbv iota.
  split; [|split].
  - destruct (truthy (Some q)), (truthy (Some t));
      try apply filter_keeps_sublist; try apply filter_sublist; reflexivity.
  - destruct (truthy (Some q)); [apply filter_sublist | reflexivity].
  - intros q2 Hq Hq2 Hlower.
    rewrite (proj2 (truthy_spec q) Hq), (proj2 (truthy_spec q2) Hq2), Hlower.
    reflexivity.
Qed.

End SearchMore.

Lemma searchItems_narrows_witness :
  ("IRON" : string) ≠ EmptyString ∧ ("Iron" : string) ≠ EmptyString
  ∧ ascii_lower "Iron" = ascii_lower "IRON"
  ∧ result (searchItems ascii_lower "Iron" "item") (after (loadData sample_site) constructor)
    = result (searchItems ascii_lower "IRON" "item") (after (loadData sample_site) constructor).
Proof.
  assert (H1 : ("IRON" : string) ≠ EmptyString) by discriminate.
  assert (H2 : ("Iron" : string) ≠ EmptyString) by discriminate.
  assert (H3 : ascii_lower "Iron" = ascii_lower "IRON") by reflexivity.
  split; [exact H1|]. split; [exact H2|]. split; [exact H3|].
  destruct (searchItems_narrows ascii_lower (after (loadData sample_site) constructor)
              "IRON" "item") as (found & untyped & Hfound & _ & _ & _ & Hcase).
  rewrite Hfound. exact (Hcase "Iron" H1 H2 H3).
Defined.

(** * The pages *)

(** ** Escaping *)

Lemma entity_cases c :
  match entity c with
  | Some replacement =>
      (c = "&"%char ∧ replacement = "&amp;")
      ∨ (c = "<"%char ∧ replacement = "&lt;")
      ∨ (c = ">"%char ∧ replacement = "&gt;")
      ∨ (c = "034"%char ∧ replacement = "&quot;")
      ∨ (c = "'"%char ∧ replacement = "&#039;")
  | None =>
      c ≠ "&"%char ∧ c ≠ "<"%char ∧ c ≠ ">"%char ∧ c ≠ "034"%char ∧ c ≠ "'"%char
  end.
Proof.
  unfold entity.
  destruct (Ascii.eqb_spec c "&"); [now left|].
  destruct (Ascii.eqb_spec c "<"); [right; now left|].
  destruct (Ascii.eqb_spec c ">"); [right; right; now left|].
  destruct (Ascii.eqb_spec c "034"); [right; right; right; now left|].
  destruct (Ascii.eqb_spec c "'"); [right; right; right; now right|].
  repeat split; assumption.
Qed.

Lemma list_ascii_of_string_app a b :
  String.list_ascii_of_string (a +:+ b) = String.list_ascii_of_string a ++ String.list_ascii_of_string b.
Proof.
  induction a as [|c a IH]; [reflexivity|].
  change (c :: String.list_ascii_of_string (a +:+ b)
          = c :: (String.list_ascii_of_string a ++ String.list_ascii_of_string b)).
  f_equal. exact IH.
Qed.

(** X15: the text [escapeHtml] returns contains neither angle bracket and
    neither kind of quote, whatever text it is given. *)
Theorem escapeHtml_no_markup (text : string) (c : ascii) :
  c ∈ String.list_ascii_of_string (escapeHtml text) →
  c ≠ "<"%char ∧ c ≠ ">"%char ∧ c ≠ "034"%char ∧ c ≠ "'"%char.
Proof.
  induction text as [|d text IH]; simpl.
  - intros H. apply elem_of_nil in H. destruct H.
  - pose proof (entity_cases d) as Hd. destruct (entity d) as [replacement|].
    + rewrite list_ascii_of_string_app, elem_of_app. intros [Hc|Hc]; [|now apply IH].
      destruct Hd as [[_ ->]|[[_ ->]|[[_ ->]|[[_ ->]|[_ ->]]]]];
        simpl in Hc; apply list_elem_of_In in Hc; simpl in Hc;
        repeat (destruct Hc as [<-|Hc]; [repeat split; discriminate|]);
        destruct Hc.
    + simpl. rewrite elem_of_cons. intros [->|Hc]; [|now apply IH].
      tauto.
Qed.

Lemma escapeHtml_no_markup_witness :
  "&"%char ∈ String.list_ascii_of_string (escapeHtml "<b>")
  ∧ "&"%char ≠ "<"%char.
Proof.
  assert (H : "&"%char ∈ String.list_ascii_of_string (escapeHtml "<b>")) by (vm_compute; left).
  split; [exact H|].
  exact (proj1 (escapeHtml_no_markup "<b>" "&" H)).
Defined.

Lemma append_assoc (a b c : string) : (a +:+ b) +:+ c = a +:+ (b +:+ c).
Proof.
  induction a as [|x a IH]; [reflexivity|].
  change (String x ((a +:+ b) +:+ c) = String x (a +:+ (b +:+ c))).
  f_equal. exact IH.
Qed.

Lemma append_length (a b : string) :
  String.length (a +:+ b) = String.length a + String.length b.
Proof.
  induction a as [|x a IH]; [reflexivity|].
  change (S (String.length (a +:+ b)) = S (String.length a + String.length b)).
  f_equal. exact IH.
Qed.

(** X16: [escapeHtml] works character by character: the escape of a
    concatenation is the concatenation of the escapes, the result is never
    shorter than the text, and it is the text itself exactly when the text
    contains none of the five characters. *)
Theorem escapeHtml_append (a b : string) :
  escapeHtml (a +:+ b) = escapeHtml a +:+ escapeHtml b
  ∧ String.length a ≤ String.length (escapeHtml a)
  ∧ (escapeHtml a = a ↔ ∀ c, c ∈ String.list_ascii_of_string a → entity c = None).
Proof.
  split; [|split].
  - induction a as [|c a IH]; simpl; [reflexivity|].
    destruct (entity c); rewrite IH; [now rewrite append_assoc | reflexivity].
  - induction a as [|c a IH]; simpl; [lia|].
    pose proof (entity_cases c) as Hc. destruct (entity c) as [replacement|].
    + rewrite append_length.
      destruct Hc as [[_ ->]|[[_ ->]|[[_ ->]|[[_ ->]|[_ ->]]]]]; simpl; lia.
    + simpl. lia.
  - assert (Hlen : ∀ s, String.length s ≤ String.length (escapeHtml s)).
    { induction s as [|c s IH]; simpl; [lia|].
      pose proof (entity_cases c) as Hc. destruct (entity c) as [replacement|].
      - rewrite append_length.
        destruct Hc as [[_ ->]|[[_ ->]|[[_ ->]|[[_ ->]|[_ ->]]]]]; simpl; lia.
      - simpl. lia. }
    induction a as [|c a IH]; simpl.
    + split; [|reflexivity]. intros _ c Hc. apply elem_of_nil in Hc. destruct Hc.
    + pose proof (entity_cases c) as Hc. destruct (entity c) as [replacement|] eqn:E.
      * split.
        -- intros Heq. apply (f_equal String.length) in Heq.
           rewrite append_length in Heq. simpl in Heq.
           specialize (Hlen a).
           destruct Hc as [[_ ->]|[[_ ->]|[[_ ->]|[[_ ->]|[_ ->]]]]]; simpl in Heq; lia.
        -- intros Hsafe. specialize (Hsafe c (list_elem_of_here _ _)). congruence.
      * split.
        -- intros [= Heq] d Hd. apply elem_of_cons in Hd as [->|Hd]; [exact E|].
           now apply IH.
        -- intros Hsafe. f_equal. apply IH. intros d Hd. apply Hsafe. now right.
Qed.

(** X17: [escapeHtml] loses nothing: two texts with the same escape are the
    same text. *)
Theorem escapeHtml_injective (a b : string) :
  escapeHtml a = escapeHtml b → a = b.
Proof.
  revert b. induction a as [|c a IH]; intros [|d b]; simpl.
  - reflexivity.
  - pose proof (entity_cases d) as Hd. destruct (entity d) as [r|].
    + destruct Hd as [[_ ->]|[[_ ->]|[[_ ->]|[[_ ->]|[_ ->]]]]]; discriminate.
    + discriminate.
  - pose proof (entity_cases c) as Hc. destruct (entity c) as [r|].
    + destruct Hc as [[_ ->]|[[_ ->]|[[_ ->]|[[_ ->]|[_ ->]]]]]; discriminate.
    + discriminate.
  - pose proof (entity_cases c) as Hc. pose proof (entity_cases d) as Hd.
    destruct (entity c) as [r|], (entity d) as [r'|].
    + destruct Hc as [[-> ->]|[[-> ->]|[[-> ->]|[[-> ->]|[-> ->]]]]];
        destruct Hd as [[-> ->]|[[-> ->]|[[-> ->]|[[-> ->]|[-> ->]]]]];
        simpl; intros H; try discriminate H;
        injection H as H; f_equal; now apply IH.
    + destruct Hc as [[_ ->]|[[_ ->]|[[_ ->]|[[_ ->]|[_ ->]]]]];
        simpl; intros [= <- _]; tauto.
    + destruct Hd as [[_ ->]|[[_ ->]|[[_ ->]|[[_ ->]|[_ ->]]]]];
        simpl; intros [= -> _]; tauto.
    + intros [= -> H]. f_equal. now apply IH.
Qed.

Lemma escapeHtml_injective_witness :
  escapeHtml "a<b" = escapeHtml "a<b" ∧ ("a<b" : string) = "a<b".
Proof.
  assert (H : escapeHtml "a<b" = escapeHtml "a<b") by reflexivity.
  split; [exact H|]. exact (escapeHtml_injective "a<b" "a<b" H).
Defined.

(** ** The homepage list *)

Lemma sort_insert_by_perm {A} (compare : A → A → Z) x (sorted : list A) :
  sort_insert_by compare x sorted ≡ₚ x :: sorted.
Proof.
  induction sorted as [|y rest IH]; simpl; [reflexivity|].
  destruct (compare x y <=? 0)%Z; [reflexivity|].
  rewrite IH. apply Permutation_swap.
Qed.

Lemma sort_by_perm {A} (compare : A → A → Z) (elems : list A) :
  sort_by compare elems ≡ₚ elems.
Proof.
  induction elems as [|x rest IH]; simpl; [reflexivity|].
  change (fold_right (sort_insert_by compare) [] rest) with (sort_by compare rest).
  now rewrite sort_insert_by_perm, IH.
Qed.

Lemma sort_insert_by_sorted {A} (compare : A → A → Z) x (sorted : list A) :
  (∀ a b, (0 < compare a b)%Z → (compare b a <= 0)%Z) →
  Sorted (λ a b, (compare a b <= 0)%Z) sorted →
  Sorted (λ a b, (compare a b <= 0)%Z) (sort_insert_by compare x sorted).
Proof.
  intros Hanti. induction sorted as [|y rest IH]; intros Hs; simpl.
  - repeat constructor.
  - destruct (Z.leb_spec (compare x y) 0) as [Hle|Hgt].
    + constructor; [exact Hs | now constructor].
    + apply Sorted_inv in Hs as [Hrest Hhd].
      constructor; [now apply IH|].
      destruct rest as [|z rest]; simpl.
      * constructor. now apply Hanti.
      * destruct (compare x z <=? 0)%Z; constructor; [now apply Hanti|].
        now apply HdRel_inv in Hhd.
Qed.

Lemma sort_by_sorted {A} (compare : A → A → Z) (elems : list A) :
  (∀ a b, (0 < compare a b)%Z → (compare b a <= 0)%Z) →
  Sorted (λ a b, (compare a b <= 0)%Z) (sort_by compare elems).
Proof.
  intros Hanti. induction elems as [|x rest IH]; simpl; [constructor|].
  now apply sort_insert_by_sorted.
Qed.

Lemma sort_by_constant {A} (compare : A → A → Z) (elems : list A) :
  (∀ a b, compare a b = 0%Z) → sort_by compare elems = elems.
Proof.
  intros Hzero. induction elems as [|x rest IH]; simpl; [reflexivity|].
  change (fold_right (sort_insert_by compare) [] rest) with (sort_by compare rest).
  rewrite IH. destruct rest as [|y rest]; simpl; [reflexivity|].
  now rewrite Hzero.
Qed.

Section HomepageSpec.

Variable toLowerCase : string → string.
Variable localeCompare : string → string → Z.

Lemma searchItems_run q t st :
  ∃ found,
    searchItems toLowerCase q t st = (Returns found, st)
    ∧ sublist found (items st)
    ∧ (truthy (Some t) || truthy (Some q) = false → found = items st).
Proof.
  unfold searchItems, bind, this, ret. eexists. split; [reflexivity|]. split.
  - destruct (truthy (Some q)), (truthy (Some t)).
    + etransitivity; apply filter_sublist.
    + apply filter_sublist.
    + apply filter_sublist.
    + reflexivity.
  - intros H. apply orb_false_iff in H as [-> ->]. reflexivity.
Qed.

Lemma getItemIcon_run x st : ∃ answer, getItemIcon x st = (Returns answer, st).
Proof.
  unfold getItemIcon, bind, this.
  destruct (object_get (iconMapping st) x) as [| |[s|key]]; try (eexists; reflexivity).
  destruct (truthy (Some s)); eexists; reflexivity.
Qed.

Lemma createItemCard_run item st :
  ∃ c,
    createItemCard item st = (Returns c, st)
    ∧ target c = Item.id item
    ∧ heading c = escapeHtml (Item.displayName item)
    ∧ item_type c = escapeHtml (Item.type item).
Proof.
  unfold createItemCard.
  destruct (getItemIcon_run (Item.id item) st) as [answer E].
  rewrite (bind_returns _ _ _ _ _ E). eexists. split; [reflexivity|].
  repeat split.
Qed.

Lemma mapM_createItemCard_run (elems : list Item.t) st :
  ∃ cards,
    mapM elems createItemCard st = (Returns cards, st)
    ∧ target <$> cards = Item.id <$> elems
    ∧ heading <$> cards = (λ item, escapeHtml (Item.displayName item)) <$> elems
    ∧ item_type <$> cards = (λ item, escapeHtml (Item.type item)) <$> elems.
Proof.
  induction elems as [|item rest IH]; simpl.
  - exists []. repeat split.
  - destruct (createItemCard_run item st) as (c & Hc & Ht & Hh & Hty).
    destruct IH as (cards & Hcards & Hts & Hhs & Htys).
    rewrite (bind_returns _ _ _ _ _ Hc), (bind_returns _ _ _ _ _ Hcards).
    exists (c :: cards). split; [reflexivity|]. rewrite !fmap_cons.
    rewrite Ht, Hh, Hty, Hts, Hhs, Htys. repeat split.
Qed.

Lemma renderItems_run a st elems :
  contents (currentItems a) st = (Returns elems, st) →
  ∃ g, renderItems a st = (Returns (with_itemsGrid g a), st) ∧ renders elems g.
Proof.
  intros Hc. unfold renderItems. rewrite (bind_returns _ _ _ _ _ Hc).
  destruct elems as [|item rest].
  - exists NoData. split; reflexivity.
  - destruct (mapM_createItemCard_run (item :: rest) st) as (cards & Hcards & H).
    rewrite (bind_returns _ _ _ _ _ Hcards). exists (Cards cards).
    split; [reflexivity|]. now exists cards.
Qed.

Lemma updateItemCount_run a st elems :
  contents (currentItems a) st = (Returns elems, st) →
  updateItemCount a st
  = (Returns (with_itemCount
                (count_text (currentQuery a) (currentTypeFilter a)
                            (length elems) (length (items st))) a), st).
Proof.
  intros Hc. unfold updateItemCount, getAllItems.
  unfold bind at 1, this at 1. rewrite (bind_returns _ _ _ _ _ Hc).
  unfold count_text. destruct (truthy _ || truthy _); reflexivity.
Qed.

(** [displayItems], run. *)
Lemma displayItems_run a st :
  ∃ found g,
    searchItems toLowerCase (currentQuery a) (currentTypeFilter a) st = (Returns found, st)
    ∧ sublist found (items st)
    ∧ renders (sort_by (compareItems localeCompare (currentSort a)) found) g
    ∧ displayItems toLowerCase localeCompare a st
      = (let filtering :=
           truthy (Some (currentTypeFilter a)) || truthy (Some (currentQuery a)) in
         let shown := sort_by (compareItems localeCompare (currentSort a)) found in
         (Returns
            {| currentItems := if filtering then Own shown else TheItems;
               currentQuery := currentQuery a;
               currentTypeFilter := currentTypeFilter a;
               currentSort := currentSort a;
               itemsGrid := g;
               itemCount := count_text (currentQuery a) (currentTypeFilter a)
                                       (length shown) (length (items st)) |},
          if filtering then st else set_items shown st)).
Proof.
  destruct (searchItems_run (currentQuery a) (currentTypeFilter a) st)
    as (found & Hsearch & Hsub & Hall).
  set (shown := sort_by (compareItems localeCompare (currentSort a)) found).
  assert (Hlen : length shown = length found).
  { apply Permutation_length, sort_by_perm. }
  unfold displayItems, searchItems_array.
  destruct (truthy (Some (currentTypeFilter a)) || truthy (Some (currentQuery a))) eqn:F.
  - (* an array of the page's own *)
    set (a2 := with_currentItems (Own shown) (with_currentItems (Own found) a)).
    destruct (renderItems_run a2 st shown eq_refl) as (g & Hrender & Hg).
    exists found, g. split; [exact Hsearch|]. split; [exact Hsub|]. split; [exact Hg|].
    rewrite (bind_returns _ _ st (Own found) st); [|now rewrite (bind_returns _ _ _ _ _ Hsearch)].
    rewrite (bind_returns _ _ st a2 st); [|reflexivity].
    rewrite (bind_returns _ _ _ _ _ Hrender).
    rewrite (updateItemCount_run (with_itemsGrid g a2) st shown eq_refl). reflexivity.
  - (* the index's own array *)
    specialize (Hall eq_refl). subst found.
    set (a2 := with_currentItems TheItems a).
    set (st2 := set_items shown st).
    destruct (renderItems_run a2 st2 shown eq_refl) as (g & Hrender & Hg).
    exists (items st), g. split; [exact Hsearch|]. split; [exact Hsub|]. split; [exact Hg|].
    rewrite (bind_returns _ _ st TheItems st); [|reflexivity].
    rewrite (bind_returns _ _ st a2 st2); [|reflexivity].
    rewrite (bind_returns _ _ _ _ _ Hrender).
    rewrite (updateItemCount_run (with_itemsGrid g a2) st2 shown eq_refl).
    cbv zeta. fold shown. simpl items. rewrite Hlen. reflexivity.
Qed.

Lemma filtering_spec (q t : string) :
  truthy (Some t) || truthy (Some q) = true ↔ q ≠ EmptyString ∨ t ≠ EmptyString.
Proof. rewrite orb_true_iff, !truthy_spec. tauto. Qed.

Lemma not_filtering_spec (q t : string) :
  truthy (Some t) || truthy (Some q) = false ↔ q = EmptyString ∧ t = EmptyString.
Proof.
  split.
  - intros H. destruct (decide (q = EmptyString)) as [->|Hq].
    + destruct (decide (t = EmptyString)) as [->|Ht]; [easy|].
      assert (truthy (Some t) || truthy (Some EmptyString) = true) as H'
          by (apply filtering_spec; now right).
      congruence.
    + assert (truthy (Some t) || truthy (Some q) = true) as H'
          by (apply filtering_spec; now left).
      congruence.
  - intros [-> ->]. reflexivity.
Qed.

(** X18: [displayItems] never touches the lookups, the recipes, the crafting
    entities, the dataset or the icon mapping, and it neither adds nor drops
    an item of the index.  With a query or a type filter it leaves the whole
    index as it was; with neither, the array it sorts is the index's own
    [this.items], which is left in the sorted order. *)
Theorem displayItems_index a st :
  let st' := after (displayItems toLowerCase localeCompare a) st in
  (∃ a', result (displayItems toLowerCase localeCompare a) st = Returns a')
  ∧ data st' = data st
  ∧ recipes st' = recipes st
  ∧ craftingEntities st' = craftingEntities st
  ∧ recipeLookup st' = recipeLookup st
  ∧ itemLookup st' = itemLookup st
  ∧ craftingLookup st' = craftingLookup st
  ∧ iconMapping st' = iconMapping st
  ∧ items st' ≡ₚ items st
  ∧ (currentQuery a ≠ EmptyString ∨ currentTypeFilter a ≠ EmptyString → st' = st)
  ∧ (currentQuery a = EmptyString → currentTypeFilter a = EmptyString →
     (∃ a', result (displayItems toLowerCase localeCompare a) st = Returns a'
            ∧ currentItems a' = TheItems)
     ∧ items st' = sort_by (compareItems localeCompare (currentSort a)) (items st)).
Proof.
  destruct (displayItems_run a st) as (found & g & Hsearch & Hsub & Hg & Hrun).
  destruct (searchItems_run (currentQuery a) (currentTypeFilter a) st)
    as (found' & Hsearch' & _ & Hall).
  rewrite Hsearch in Hsearch'. injection Hsearch' as <-.
  cbv zeta in *. unfold result, after. rewrite Hrun. cbn [fst snd].
  destruct (truthy (Some (currentTypeFilter a)) || truthy (Some (currentQuery a))) eqn:F.
  - repeat match goal with |- _ ∧ _ => split end; try reflexivity; [eauto|].
    intros Hq Ht.
    assert (truthy (Some (currentTypeFilter a)) || truthy (Some (currentQuery a)) = false)
      by (apply not_filtering_spec; now split).
    congruence.
  - rewrite (Hall eq_refl) in *.
    repeat match goal with |- _ ∧ _ => split end; try reflexivity; [eauto| | | ].
    + simpl. apply sort_by_perm.
    + intros Hf. apply filtering_spec in Hf. congruence.
    + intros _ _. split; [|reflexivity]. eexists. split; reflexivity.
Qed.

(** X19: what [displayItems] leaves on the page: [this.currentItems] holds
    exactly the items [searchItems] finds for the current query and type
    filter, each as often as it was found; the grid shows the no-data message
    when there are none and otherwise one card per shown item, in the shown
    order, that navigates to the item's id and carries its escaped display
    name and type; query, filter and sort key are unchanged. *)
Theorem displayItems_shows a st :
  ∃ a' found shown,
    result (searchItems toLowerCase (currentQuery a) (currentTypeFilter a)) st
    = Returns found
    ∧ result (displayItems toLowerCase localeCompare a) st = Returns a'
    ∧ result (contents (currentItems a'))
             (after (displayItems toLowerCase localeCompare a) st) = Returns shown
    ∧ shown ≡ₚ found
    ∧ renders shown (itemsGrid a')
    ∧ currentQuery a' = currentQuery a
    ∧ currentTypeFilter a' = currentTypeFilter a
    ∧ currentSort a' = currentSort a.
Proof.
  destruct (displayItems_run a st) as (found & g & Hsearch & Hsub & Hg & Hrun).
  cbv zeta in Hrun. unfold result, after. rewrite Hrun, Hsearch. cbn [fst snd].
  eexists _, found, (sort_by (compareItems localeCompare (currentSort a)) found).
  split; [reflexivity|]. split; [reflexivity|]. split.
  { cbn [currentItems].
    destruct (truthy (Some (currentTypeFilter a)) || truthy (Some (currentQuery a))) eqn:F.
    - reflexivity.
    - destruct (searchItems_run (currentQuery a) (currentTypeFilter a) st)
        as (found' & Hsearch' & _ & Hall).
      rewrite Hsearch in Hsearch'. injection Hsearch' as <-.
      rewrite (Hall F). reflexivity. }
  split; [apply sort_by_perm|]. split; [exact Hg|]. repeat split.
Qed.

(** X20: the item count [displayItems] writes: with a query or a type filter
    it reads [Showing n of m items], with neither [m items total], where [m]
    is the number of items of the index and [n], never more than [m], the
    number of items the search found. *)
Theorem displayItems_count a st :
  ∃ a' found,
    result (searchItems toLowerCase (currentQuery a) (currentTypeFilter a)) st
    = Returns found
    ∧ result (displayItems toLowerCase localeCompare a) st = Returns a'
    ∧ length found ≤ length (items st)
    ∧ (currentQuery a ≠ EmptyString ∨ currentTypeFilter a ≠ EmptyString →
       itemCount a'
       = "Showing " +:+ pretty (length found) +:+ " of "
         +:+ pretty (length (items st)) +:+ " items")
    ∧ (currentQuery a = EmptyString → currentTypeFilter a = EmptyString →
       itemCount a' = pretty (length (items st)) +:+ " items total").
Proof.
  destruct (displayItems_run a st) as (found & g & Hsearch & Hsub & Hg & Hrun).
  cbv zeta in Hrun. unfold result. rewrite Hrun, Hsearch. cbn [fst].
  eexists _, found. split; [reflexivity|]. split; [reflexivity|].
  split; [now apply sublist_length|]. cbn [itemCount]. unfold count_text.
  rewrite (Permutation_length (sort_by_perm _ found)). split.
  - intros Hf. assert (truthy (Some (currentQuery a))
                       || truthy (Some (currentTypeFilter a)) = true) as ->.
    { rewrite orb_comm. now apply filtering_spec. }
    reflexivity.
  - intros -> ->. reflexivity.
Qed.

(** X21: when the sort key is none of the two the comparator knows, the
    comparator answers zero for every pair and the shown items keep the
    order in which [searchItems] found them. *)
Theorem displayItems_unknown_sort_key a st :
  currentSort a ≠ "name" →
  currentSort a ≠ "type" →
  ∃ a' found,
    result (searchItems toLowerCase (currentQuery a) (currentTypeFilter a)) st
    = Returns found
    ∧ result (displayItems toLowerCase localeCompare a) st = Returns a'
    ∧ result (contents (currentItems a'))
             (after (displayItems toLowerCase localeCompare a) st) = Returns found
    ∧ after (displayItems toLowerCase localeCompare a) st = st.
Proof.
  intros Hname Htype.
  destruct (displayItems_run a st) as (found & g & Hsearch & Hsub & Hg & Hrun).
  assert (Hsame : sort_by (compareItems localeCompare (currentSort a)) found = found).
  { apply sort_by_constant. intros x y. unfold compareItems.
    apply String.eqb_neq in Hname, Htype. now rewrite Hname, Htype. }
  cbv zeta in Hrun. rewrite Hsame in Hrun.
  unfold result, after. rewrite Hrun, Hsearch. cbn [fst snd].
  eexists _, found. split; [reflexivity|]. split; [reflexivity|].
  destruct (searchItems_run (currentQuery a) (currentTypeFilter a) st)
    as (found' & Hsearch' & _ & Hall).
  rewrite Hsearch in Hsearch'. injection Hsearch' as <-.
  destruct (truthy (Some (currentTypeFilter a)) || truthy (Some (currentQuery a))) eqn:F.
  - split; reflexivity.
  - rewrite (Hall eq_refl). cbn [currentItems contents this fst items set_items].
    split; [reflexivity|]. destruct st; reflexivity.
Qed.

(** X22: after [displayItems] on a loaded index, [getItem] on that same
    index resolves the id every card of the grid navigates to, to an item
    with that id. *)
Theorem displayItems_cards_resolve web st0 st a a' cards c :
  loads web st0 st →
  result (displayItems toLowerCase localeCompare a) st = Returns a' →
  itemsGrid a' = Cards cards →
  c ∈ cards →
  ∃ item,
    result (getItem (target c)) (after (displayItems toLowerCase localeCompare a) st)
    = Returns (Val item)
    ∧ Item.id item = target c.
Proof.
  intros Hload Hres Hgrid Hc.
  destruct (displayItems_run a st) as (found & g & Hsearch & Hsub & Hg & Hrun).
  cbv zeta in Hrun. unfold result, after in *. rewrite Hrun in *. cbn [fst snd] in *.
  injection Hres as <-. cbn [itemsGrid] in Hgrid. subst g.
  assert (Htargets : target <$> cards
                     = Item.id <$> sort_by (compareItems localeCompare (currentSort a)) found).
  { unfold renders in Hg.
    destruct (sort_by (compareItems localeCompare (currentSort a)) found);
      [discriminate|].
    destruct Hg as (cards' & [= <-] & Ht & _). exact Ht. }
  assert (Hin : target c ∈ target <$> cards) by (apply list_elem_of_fmap; eauto).
  rewrite Htargets in Hin. apply list_elem_of_fmap in Hin as (item & Hid & Hitem).
  rewrite sort_by_perm in Hitem.
  assert (Hitems : item ∈ items st).
  { apply list_elem_of_In. apply list_elem_of_In in Hitem.
    revert Hitem. clear -Hsub. induction Hsub; simpl; intuition. }
  destruct (loads_items_indexed _ _ _ item Hload Hitems) as (stored & Hlookup & Hsid & _).
  exists stored. unfold getItem, bind, this, Map_get. cbn [fst].
  assert (Hsame : itemLookup (if truthy (Some (currentTypeFilter a))
                                 || truthy (Some (currentQuery a))
                              then st
                              else set_items
                                     (sort_by (compareItems localeCompare (currentSort a)) found)
                                     st)
                  = itemLookup st).
  { destruct (truthy _ || truthy _); reflexivity. }
  rewrite Hsame, Hid, Hlookup. split; [reflexivity | exact Hsid].
Qed.

(** X23: changing the sort key only reorders: after [handleSortChange] the
    page shows the same items, each as often, as [displayItems] shows for the
    key it had, with the same item count. *)
Theorem handleSortChange_reorders (value : string) a st :
  ∃ before after_change shown shown',
    result (displayItems toLowerCase localeCompare a) st = Returns before
    ∧ result (handleSortChange toLowerCase localeCompare value a) st = Returns after_change
    ∧ result (contents (currentItems before))
             (after (displayItems toLowerCase localeCompare a) st) = Returns shown
    ∧ result (contents (currentItems after_change))
             (after (handleSortChange toLowerCase localeCompare value a) st)
      = Returns shown'
    ∧ shown' ≡ₚ shown
    ∧ itemCount after_change = itemCount before
    ∧ currentSort after_change = value.
Proof.
  unfold handleSortChange.
  destruct (displayItems_run a st) as (found & g & Hsearch & _ & _ & Hrun).
  destruct (displayItems_run (with_currentSort value a) st)
    as (found' & g' & Hsearch' & _ & _ & Hrun').
  cbn [currentQuery currentTypeFilter currentSort with_currentSort] in *.
  rewrite Hsearch in Hsearch'. injection Hsearch' as <-.
  cbv zeta in Hrun, Hrun'. unfold result, after. rewrite Hrun, Hrun'. cbn [fst snd].
  assert (Hall : truthy (Some (currentTypeFilter a)) || truthy (Some (currentQuery a)) = false
                 → found = items st).
  { destruct (searchItems_run (currentQuery a) (currentTypeFilter a) st)
      as (f & Hs & _ & H). rewrite Hsearch in Hs. now injection Hs as <-. }
  eexists _, _, (sort_by (compareItems localeCompare (currentSort a)) found),
    (sort_by (compareItems localeCompare value) found).
  split; [reflexivity|]. split; [reflexivity|]. cbn [currentItems itemCount currentSort].
  destruct (truthy (Some (currentTypeFilter a)) || truthy (Some (currentQuery a))) eqn:F.
  - split; [reflexivity|]. split; [reflexivity|].
    split; [now rewrite !sort_by_perm|]. split; [|reflexivity].
    now rewrite !(Permutation_length (sort_by_perm _ found)).
  - rewrite (Hall eq_refl). split; [reflexivity|]. split; [reflexivity|].
    split; [now rewrite !sort_by_perm|]. split; [|reflexivity].
    now rewrite !(Permutation_length (sort_by_perm _ (items st))).
Qed.

Lemma Sorted_weaken {A} (R R' : A → A → Prop) (l : list A) :
  (∀ x y, R x y → R' x y) → Sorted R l → Sorted R' l.
Proof.
  intros Himpl. induction 1 as [|x l _ IH Hhd]; constructor; [exact IH|].
  destruct Hhd; constructor. now apply Himpl.
Qed.

(** [localeCompare] orders: when it puts [x] after [y] it puts [y] before
    [x]. *)
Hypothesis localeCompare_antisym :
  ∀ x y, (0 < localeCompare x y)%Z → (localeCompare y x < 0)%Z.

Lemma compareItems_antisym sortKey x y :
  (0 < compareItems localeCompare sortKey x y)%Z →
  (compareItems localeCompare sortKey y x <= 0)%Z.
Proof.
  unfold compareItems.
  destruct (String.eqb sortKey "name").
  - intros H. apply localeCompare_antisym in H. lia.
  - destruct (String.eqb sortKey "type"); [|lia].
    destruct (Z.eqb_spec (localeCompare (Item.type x) (Item.type y)) 0) as [Hz|Hnz].
    + intros H. apply localeCompare_antisym in H.
      destruct (Z.eqb_spec (localeCompare (Item.type y) (Item.type x)) 0) as [Hz'|Hnz'];
        [lia|].
      destruct (Z.lt_trichotomy (localeCompare (Item.type y) (Item.type x)) 0)
        as [Hlt|[Heq|Hgt]]; [lia | lia |].
      apply localeCompare_antisym in Hgt. lia.
    + intros H. apply localeCompare_antisym in H.
      destruct (Z.eqb_spec (localeCompare (Item.type y) (Item.type x)) 0); lia.
Qed.

(** X24: with a [localeCompare] that orders, the items [displayItems] shows
    are in order: by display name under the key [name]; by type, and by
    display name among items of types that compare equal, under the key
    [type]. *)
Theorem displayItems_sorted a st :
  ∃ a' shown,
    result (displayItems toLowerCase localeCompare a) st = Returns a'
    ∧ result (contents (currentItems a'))
             (after (displayItems toLowerCase localeCompare a) st) = Returns shown
    ∧ (currentSort a = "name" →
       Sorted (λ x y, (localeCompare (Item.displayName x) (Item.displayName y) <= 0)%Z)
              shown)
    ∧ (currentSort a = "type" →
       Sorted (λ x y,
                 (localeCompare (Item.type x) (Item.type y) < 0)%Z
                 ∨ (localeCompare (Item.type x) (Item.type y) = 0%Z
                    ∧ (localeCompare (Item.displayName x) (Item.displayName y) <= 0)%Z))
              shown).
Proof.
  destruct (displayItems_run a st) as (found & g & Hsearch & _ & _ & Hrun).
  cbv zeta in Hrun. unfold result, after. rewrite Hrun. cbn [fst snd].
  eexists _, (sort_by (compareItems localeCompare (currentSort a)) found).
  split; [reflexivity|]. split.
  { cbn [currentItems].
    destruct (truthy (Some (currentTypeFilter a)) || truthy (Some (currentQuery a))) eqn:F.
    - reflexivity.
    - destruct (searchItems_run (currentQuery a) (currentTypeFilter a) st)
        as (found' & Hsearch' & _ & Hall).
      rewrite Hsearch in Hsearch'. injection Hsearch' as <-.
      rewrite (Hall F). reflexivity. }
  pose proof (sort_by_sorted (compareItems localeCompare (currentSort a)) found
                (compareItems_antisym (currentSort a))) as Hsorted.
  split.
  - intros Hkey. rewrite Hkey in *. revert Hsorted. apply Sorted_weaken.
    intros x y. unfold compareItems. simpl. easy.
  - intros Hkey. rewrite Hkey in *. revert Hsorted. apply Sorted_weaken.
    intros x y. unfold compareItems. simpl.
    destruct (Z.eqb_spec (localeCompare (Item.type x) (Item.type y)) 0); lia.
Qed.

End HomepageSpec.

Lemma displayItems_unknown_sort_key_witness :
  currentSort (with_currentSort "price" opened) ≠ "name"
  ∧ currentSort (with_currentSort "price" opened) ≠ "type"
  ∧ after (displayItems ascii_lower code_unit_compare (with_currentSort "price" opened))
          (after (loadData sample_site) constructor)
    = after (loadData sample_site) constructor.
Proof.
  assert (H1 : currentSort (with_currentSort "price" opened) ≠ "name") by discriminate.
  assert (H2 : currentSort (with_currentSort "price" opened) ≠ "type") by discriminate.
  split; [exact H1|]. split; [exact H2|].
  destruct (displayItems_unknown_sort_key ascii_lower code_unit_compare
              (with_currentSort "price" opened)
              (after (loadData sample_site) constructor) H1 H2)
    as (a' & found & _ & _ & _ & Hafter).
  exact Hafter.
Defined.

Lemma displayItems_cards_resolve_witness :
  loads sample_site constructor (after (loadData sample_site) constructor)
  ∧ ∃ item,
      result (getItem "iron-ore")
             (after (displayItems ascii_lower code_unit_compare
                       (with_currentQuery "ore" opened))
                    (after (loadData sample_site) constructor))
      = Returns (Val item)
      ∧ Item.id item = "iron-ore".
Proof.
  assert (H : loads sample_site constructor (after (loadData sample_site) constructor))
    by (vm_compute; reflexivity).
  split; [exact H|].
  apply (displayItems_cards_resolve ascii_lower code_unit_compare sample_site constructor
           (after (loadData sample_site) constructor)
           (with_currentQuery "ore" opened)
           {| currentItems := Own [make_item "item" (record "iron-ore" None)];
              currentQuery := "ore"; currentTypeFilter := ""; currentSort := "name";
              itemsGrid := Cards [{| target := "iron-ore"; icon := Placeholder;
                                     heading := "iron-ore"; item_type := "item" |}];
              itemCount := "Showing 1 of 3 items" |}
           [{| target := "iron-ore"; icon := Placeholder;
               heading := "iron-ore"; item_type := "item" |}]
           {| target := "iron-ore"; icon := Placeholder;
              heading := "iron-ore"; item_type := "item" |} H).
  - vm_compute. reflexivity.
  - reflexivity.
  - left.
Defined.

Lemma code_unit_compare_antisym x y :
  (0 < code_unit_compare x y)%Z → (code_unit_compare y x < 0)%Z.
Proof.
  unfold code_unit_compare. rewrite (String.compare_antisym x y).
  destruct (String.compare y x); simpl; lia.
Qed.

Lemma displayItems_sorted_witness :
  (∀ x y, (0 < code_unit_compare x y)%Z → (code_unit_compare y x < 0)%Z)
  ∧ ∃ a' shown,
      result (displayItems ascii_lower code_unit_compare opened)
             (after (loadData sample_site) constructor) = Returns a'
      ∧ result (contents (currentItems a'))
               (after (displayItems ascii_lower code_unit_compare opened)
                      (after (loadData sample_site) constructor)) = Returns shown
      ∧ Item.displayName <$> shown = ["Iron Plate"; "iron-ore"; "water"].
Proof.
  split; [exact code_unit_compare_antisym|].
  destruct (displayItems_sorted ascii_lower code_unit_compare code_unit_compare_antisym
              opened (after (loadData sample_site) constructor))
    as (a' & shown & Hres & Hshown & _).
  exists a', shown. split; [exact Hres|]. split; [exact Hshown|].
  vm_compute in Hres. injection Hres as <-.
  vm_compute in Hshown. injection Hshown as <-. reflexivity.
Defined.

Lemma displayItems_index_witness :
  currentQuery opened = EmptyString ∧ currentTypeFilter opened = EmptyString
  ∧ Item.displayName
      <$> items (after (displayItems ascii_lower code_unit_compare opened)
                       (after (loadData sample_site) constructor))
    = ["Iron Plate"; "iron-ore"; "water"].
Proof.
  split; [reflexivity|]. split; [reflexivity|].
  destruct (displayItems_index ascii_lower code_unit_compare opened
              (after (loadData sample_site) constructor))
    as (_ & _ & _ & _ & _ & _ & _ & _ & _ & _ & Hsorted).
  destruct (Hsorted eq_refl eq_refl) as [_ ->]. vm_compute. reflexivity.
Defined.

Lemma displayItems_count_witness :
  ∃ a',
    result (displayItems ascii_lower code_unit_compare (with_currentQuery "ore" opened))
           (after (loadData sample_site) constructor) = Returns a'
    ∧ itemCount a' = "Showing 1 of 3 items".
Proof.
  destruct (displayItems_count ascii_lower code_unit_compare (with_currentQuery "ore" opened)
              (after (loadData sample_site) constructor))
    as (a' & found & Hfound & Hres & _ & Htext & _).
  exists a'. split; [exact Hres|].
  rewrite Htext by (left; discriminate).
  vm_compute in Hfound. injection Hfound as <-. vm_compute. reflexivity.
Defined.
